(** * Voice relay: relay server, client gateway and recording controller

  A shallow embedding of the voice demo application:
  - [Server]        src/server/index.js  (rate gate, /api/transcribe, /api/speech)
  - [Gateway]       src/src/services/openai.ts  (transcribeAudio, generateSpeech)
  - [AudioUtils]    src/audioUtils.js  (transcribeAudio, generateSpeech with abort timers)
  - [VoiceControls] src/src/components/VoiceControls.tsx
  - [App]           the root component mounting two VoiceControls instances

  JavaScript strings are sequences of UTF-16 code units, so [length] is
  the JavaScript [.length].  Time stamps ([Date.now()]) are integers in
  milliseconds.  Asynchronous calls are modelled by passing the answer of
  the environment (provider, network, browser) as an argument and by
  recording the calls that were issued in a trace. *)

From Stdlib Require Import ZArith NArith String Ascii Strings.Byte.
From Stdlib Require Import DecimalString DecimalN DecimalPos.
From stdpp Require Import gmap strings list.

Local Open Scope Z_scope.

(** ** JavaScript values *)

Module JS.

(** A string as a list of UTF-16 code units. *)
Abbreviation str := (list N).

(** A string literal of the source (all literals are ASCII). *)
Definition lit (s : string) : str :=
  (λ a, N_of_ascii a) <$> list_ascii_of_string s.

(** WhiteSpace and LineTerminator code points of ECMAScript, the ones
    [String.prototype.trim] strips. *)
Definition is_space (c : N) : bool :=
  bool_decide (c ∈ [9; 10; 11; 12; 13; 32; 160; 5760; 8232; 8233; 8239;
                    8287; 12288; 65279]%N)
  || ((8192 <=? c) && (c <=? 8202))%N.

Fixpoint trimStart (s : str) : str :=
  match s with
  | c :: s' => if is_space c then trimStart s' else s
  | [] => []
  end.

Definition trimEnd (s : str) : str := reverse (trimStart (reverse s)).

Definition trim (s : str) : str := trimEnd (trimStart s).

Fixpoint startsWith (s p : str) : bool :=
  match p, s with
  | [], _ => true
  | a :: p', b :: s' => (a =? b)%N && startsWith s' p'
  | _ :: _, [] => false
  end.

(** [s.includes(sub)] *)
Fixpoint includes (s sub : str) : bool :=
  startsWith s sub ||
  match s with
  | [] => false
  | _ :: s' => includes s' sub
  end.

(** The values a parsed JSON body field can hold; [Undefined] is an
    absent field.  Arrays and objects are not distinguished further:
    they are truthy and have no callable [trim]. *)
Inductive value :=
| Undefined
| Null
| Bool (b : bool)
| Num (n : Z)
| Str (s : str)
| Obj.

(** ToBoolean *)
Definition truthy (v : value) : bool :=
  match v with
  | Undefined | Null => false
  | Bool b => b
  | Num n => negb (n =? 0)
  | Str s => negb (bool_decide (s = []))
  | Obj => true
  end.

(** [a || b] *)
Definition or (a b : value) : value := if truthy a then a else b.

(** An error object: [name], [message] and the optional numeric
    [status] that provider errors carry. *)
Record error := Error {
  name : str;
  message : str;
  status : option Z;
}.

Definition mkError (msg : str) : error :=
  {| name := lit "Error"; message := msg; status := None |}.

Definition TypeError (msg : str) : error :=
  {| name := lit "TypeError"; message := msg; status := None |}.

(** [n.toString()] of a non-negative integer. *)
Definition toString (n : N) : string :=
  NilZero.string_of_uint (N.to_uint n).

#[global] Instance value_eq_dec : EqDecision value.
Proof. solve_decision. Defined.

#[global] Instance error_eq_dec : EqDecision error.
Proof. solve_decision. Defined.

End JS.

(** ** The relay server (src/server/index.js) *)

Module Server.

(** The [rateLimit] map: client IP to the time of its last accepted
    request. *)
Abbreviation limiter := (gmap string Z).

Definition RATE_LIMIT_WINDOW : Z := 1000.

(** [rateLimit.get(ip) || 0]: an absent entry and a stored 0 both read
    as 0. *)
Definition lastRequest (ip : string) (rateLimit : limiter) : Z :=
  match rateLimit !! ip with
  | Some t => if t =? 0 then 0 else t
  | None => 0
  end.

Definition checkRateLimit (ip : string) (now : Z) (rateLimit : limiter)
  : bool * limiter :=
  if now - lastRequest ip rateLimit <? RATE_LIMIT_WINDOW
  then (false, rateLimit)
  else (true, <[ip := now]> rateLimit).

Inductive body :=
| JsonError (msg : JS.str)       (* { error: msg } *)
| JsonText (text : JS.str)       (* { text } *)
| JsonStatus (st : JS.str)       (* { status } *)
| Binary (bytes : list byte).    (* res.send(buffer) *)

(** A response: the status, the headers set with [res.set] (oldest
    first) and the body. *)
Record response := Response {
  status : Z;
  headers : list (string * string);
  payload : body;
}.

(** The two middlewares that run before every route. *)
Definition keepAlive : list (string * string) :=
  [("Connection", "keep-alive"); ("Keep-Alive", "timeout=120")]%string.

Definition json (st : Z) (b : body) : response :=
  {| status := st; headers := keepAlive; payload := b |}.

Definition tooManyRequests : response :=
  json 429 (JsonError (JS.lit "Too many requests. Please wait a moment.")).

(** [error.status || 500] *)
Definition statusOr500 (e : JS.error) : Z :=
  match JS.status e with
  | Some s => if s =? 0 then 500 else s
  | None => 500
  end.

(** What an awaited provider call gives back. *)
Inductive provided (A : Type) :=
| Fulfilled (a : A)
| Failed (e : JS.error).
Arguments Fulfilled {A} a.
Arguments Failed {A} e.

(** *** POST /api/transcribe *)

(** [req.file] as multer's [upload.single('audio')] leaves it. *)
Record file := File {
  buffer : list byte;
  originalname : JS.str;
  mimetype : JS.str;
}.

Record transcriptionCall := TranscriptionCall {
  t_file : file;
  t_model : JS.str;
  t_response_format : JS.str;
  t_temperature : Z;
  t_language : JS.str;
}.

(** The provider's answer: [response.text], absent when the response
    or its text is missing. *)
Definition transcriber := transcriptionCall → provided (option JS.str).

Definition transcribeError (e : JS.error) : JS.str :=
  if JS.includes (JS.message e) (JS.lit "socket hang up")
     || JS.includes (JS.message e) (JS.lit "timeout")
  then JS.lit "Connection timed out. StackBlitz has limited connection timeouts for large files. Try a shorter audio clip (under 10 seconds)."
  else if JS.includes (JS.message e) (JS.lit "File")
  then JS.lit "File handling error in StackBlitz environment. Try using the formData approach in the frontend."
  else if bool_decide (JS.status e = Some 400)
  then JS.lit "Invalid audio format. Please ensure you're sending a supported audio format (MP3, WAV, etc.)."
  else if bool_decide (JS.status e = Some 401)
  then JS.lit "Authentication error. Please check your API key."
  else JS.lit "Failed to transcribe audio.".

(** The handler returns the response, the new limiter and the provider
    calls it made. *)
Definition transcribe (openai : transcriber) (ip : string) (now : Z)
    (reqFile : option file) (rateLimit : limiter)
  : response * limiter * list transcriptionCall :=
  let '(ok, rateLimit') := checkRateLimit ip now rateLimit in
  if negb ok then (tooManyRequests, rateLimit', [])
  else
    match reqFile with
    | None => (json 400 (JsonError (JS.lit "No audio file provided")), rateLimit', [])
    | Some f =>
      let call := {| t_file := f; t_model := JS.lit "whisper-1";
                     t_response_format := JS.lit "json";
                     t_temperature := 0; t_language := JS.lit "en" |} in
      match openai call with
      | Fulfilled (Some text) =>
          if bool_decide (text = [])
          then (json 500 (JsonError (JS.lit "Failed to transcribe audio. No text returned.")),
                rateLimit', [call])
          else (json 200 (JsonText text), rateLimit', [call])
      | Fulfilled None =>
          (json 500 (JsonError (JS.lit "Failed to transcribe audio. No text returned.")),
           rateLimit', [call])
      | Failed e =>
          (json (statusOr500 e) (JsonError (transcribeError e)), rateLimit', [call])
      end
    end.

(** *** POST /api/speech *)

(** [req.body] after [express.json()]: the two fields the handler
    destructures. *)
Record speechBody := SpeechBody {
  text : JS.value;
  voice : JS.value;
}.

Record speechCall := SpeechCall {
  s_model : JS.str;
  s_voice : JS.value;
  s_input : JS.str;
}.

(** The provider's answer: the bytes of [response.arrayBuffer()]. *)
Definition synthesizer := speechCall → provided (list byte).

Definition speechError (e : JS.error) : JS.str :=
  if JS.includes (JS.message e) (JS.lit "timeout")
     || JS.includes (JS.message e) (JS.lit "socket hang up")
  then JS.lit "Request timed out. Consider using shorter text in StackBlitz environment."
  else JS.lit "Failed to generate speech.".

(** The [catch] block. *)
Definition speechCatch (e : JS.error) : response :=
  json (statusOr500 e) (JsonError (speechError e)).

Definition noTextProvided : response :=
  json 400 (JsonError (JS.lit "No text provided")).

Definition textTooLong : response :=
  json 400 (JsonError (JS.lit "Text too long. Maximum length is 4000 characters.")).

(** The success path: [res.set] twice, then [res.send(buffer)]. *)
Definition sendAudio (buffer : list byte) : response :=
  {| status := 200;
     headers := keepAlive ++
       [("Content-Type", "audio/mpeg");
        ("Content-Length", JS.toString (N.of_nat (length buffer)))]%string;
     payload := Binary buffer |}.

Definition speech (openai : synthesizer) (ip : string) (now : Z)
    (reqBody : speechBody) (rateLimit : limiter)
  : response * limiter * list speechCall :=
  let '(ok, rateLimit') := checkRateLimit ip now rateLimit in
  if negb ok then (tooManyRequests, rateLimit', [])
  else
    if negb (JS.truthy (text reqBody)) then (noTextProvided, rateLimit', [])
    else
      match text reqBody with
      | JS.Str s =>
        if bool_decide (JS.trim s = []) then (noTextProvided, rateLimit', [])
        else if (4000 <? Z.of_nat (length s)) then (textTooLong, rateLimit', [])
        else
          let call := {| s_model := JS.lit "tts-1";
                         s_voice := JS.or (voice reqBody) (JS.Str (JS.lit "alloy"));
                         s_input := s |} in
          match openai call with
          | Fulfilled bytes =>
              ({| status := 200;
                  headers := keepAlive ++
                    [("Content-Type", "audio/mpeg");
                     ("Content-Length", JS.toString (N.of_nat (length bytes)))]%string;
                  payload := Binary bytes |},
               rateLimit', [call])
          | Failed e => (speechCatch e, rateLimit', [call])
          end
      | _ =>
        (* text.trim is not a function *)
        (speechCatch (JS.TypeError (JS.lit "text.trim is not a function")),
         rateLimit', [])
      end.

(** The value a header has when the response is sent: the last
    [res.set] of that name wins. *)
Definition header (name : string) (r : response) : option string :=
  snd <$> head (filter (λ h, h.1 = name) (reverse (headers r))).

(** The number a receiver reads from a decimal header value. *)
Definition parseLength (v : string) : option N :=
  N.of_uint <$> NilZero.uint_of_string v.

(** *** GET /api/health *)

Definition health : response := json 200 (JsonStatus (JS.lit "ok")).

End Server.

(** ** The relay as a whole: requests, runs and their log *)

Module Relay.
Import Server.

#[global] Instance byte_eq_dec : EqDecision byte := Byte.byte_eq_dec.

#[global] Instance body_eq_dec : EqDecision body.
Proof. solve_decision. Defined.

#[global] Instance response_eq_dec : EqDecision response.
Proof. solve_decision. Defined.

(** A request that reaches a route, together with what the provider
    would answer to it. *)
Inductive request :=
| GetHealth
| PostTranscribe (openai : transcriber) (reqFile : option file)
| PostSpeech (openai : synthesizer) (reqBody : speechBody).

Definition isPost (r : request) : bool :=
  match r with GetHealth => false | _ => true end.

Record event := Event {
  ev_ip : string;
  ev_now : Z;
  ev_request : request;
}.

Definition serve (ev : event) (rateLimit : limiter) : response * limiter :=
  match ev_request ev with
  | GetHealth => (health, rateLimit)
  | PostTranscribe openai f =>
      let '(r, m, _) := transcribe openai (ev_ip ev) (ev_now ev) f rateLimit in (r, m)
  | PostSpeech openai b =>
      let '(r, m, _) := speech openai (ev_ip ev) (ev_now ev) b rateLimit in (r, m)
  end.

(** The log lists the served events with their responses, newest first. *)
Definition step (acc : list (event * response) * limiter) (ev : event)
  : list (event * response) * limiter :=
  let '(r, m) := serve ev (snd acc) in ((ev, r) :: fst acc, m).

Definition run (evs : list event) (rateLimit : limiter)
  : list (event * response) * limiter :=
  foldl step ([], rateLimit) evs.

(** Read off the log alone: the time of the most recent request of [ip]
    that went through the gate and was not answered with the rate-limit
    rejection. *)
Fixpoint lastAccepted (ip : string) (log : list (event * response)) : option Z :=
  match log with
  | [] => None
  | (ev, r) :: older =>
      if isPost (ev_request ev) && bool_decide (ev_ip ev = ip)
         && negb (bool_decide (r = tooManyRequests))
      then Some (ev_now ev)
      else lastAccepted ip older
  end.

End Relay.


(** ** The browser's network primitive *)

Module Net.

(** The three routes of the relay, with the request body. *)
Inductive endpoint :=
| Health
| Transcribe (audio : list byte) (filename : JS.str)
| Speech (body : Server.speechBody).

(** A response as the client reads it: [response.ok], the object that
    [response.json()] yields ([None] when the body is not JSON, which
    makes [json()] reject) and the raw bytes of the body.  Of the JSON
    object only the fields [error] and [text] are read; each is a string
    or absent. *)
Record jsonBody := JsonBody {
  j_error : option JS.str;
  j_text : option JS.str;
}.

Record response := Response {
  ok : bool;
  json : option jsonBody;
  bytes : list byte;
}.

Inductive settled :=
| Resolved (r : response)
| Rejected (e : JS.error).

(** What the network does with a request: after [latency] milliseconds
    ([None]: never) the promise of [fetch] settles with [answer]. *)
Record roundTrip := RoundTrip {
  latency : option Z;
  answer : settled;
}.

Definition network := endpoint → roundTrip.

(** A [fetch] call as issued: the endpoint and, when a [signal] is
    passed, the delay after which its controller aborts. *)
Record call := Call {
  target : endpoint;
  abortAfter : option Z;
}.

(** The state of an awaited promise. *)
Inductive awaited (A : Type) :=
| Value (a : A)
| Throws (e : JS.error)
| Pending.
Arguments Value {A} a.
Arguments Throws {A} e.
Arguments Pending {A}.

(** Client code: it reads the network and yields an outcome and the
    calls it issued, oldest first. *)
Definition io (A : Type) : Type := network → awaited A * list call.

#[global] Instance io_ret : MRet io := λ A a _, (Value a, []).

#[global] Instance io_bind : MBind io := λ A B f m net,
  match m net with
  | (Value a, t) => let '(r, t') := f a net in (r, t ++ t')
  | (Throws e, t) => (Throws e, t)
  | (Pending, t) => (Pending, t)
  end.

Definition throw {A} (e : JS.error) : io A := λ _, (Throws e, []).

(** [try { m } catch (e) { h e }] *)
Definition catch {A} (m : io A) (h : JS.error → io A) : io A := λ net,
  match m net with
  | (Throws e, t) => let '(r, t') := h e net in (r, t ++ t')
  | other => other
  end.

Definition AbortError : JS.error :=
  {| JS.name := JS.lit "AbortError";
     JS.message := JS.lit "The user aborted a request.";
     JS.status := None |}.

(** [await fetch(url, { ..., signal })].  With a signal whose controller
    aborts after [d] ms the promise rejects with an [AbortError] unless
    the answer arrives earlier; without one it waits for the answer. *)
Definition fetch (ep : endpoint) (signal : option Z) : io response := λ net,
  let rt := net ep in
  (match signal, latency rt with
   | Some d, Some l =>
       if l <? d
       then match answer rt with Resolved r => Value r | Rejected e => Throws e end
       else Throws AbortError
   | Some d, None => Throws AbortError
   | None, Some l =>
       match answer rt with Resolved r => Value r | Rejected e => Throws e end
   | None, None => Pending
   end,
   [{| target := ep; abortAfter := signal |}]).

(** [await response.json()] *)
Definition jsonOf (r : response) : io jsonBody :=
  match json r with
  | Some j => mret j
  | None => throw {| JS.name := JS.lit "SyntaxError";
                     JS.message := JS.lit "Unexpected token in JSON";
                     JS.status := None |}
  end.

(** [field || fallback] on a string field. *)
Definition orElse (field : option JS.str) (fallback : JS.str) : JS.str :=
  match field with
  | Some (c :: s) => c :: s
  | _ => fallback
  end.

End Net.

(** ** The client gateway (src/src/services/openai.ts) *)

Module Gateway.
Import Net.

Definition connectionFailed : JS.str :=
  JS.lit "Server connection failed. Please ensure the server is running.".

(** The inner [try]/[catch] around the health request. *)
Definition healthCheck : io unit :=
  catch
    (healthCheck ← fetch Health None;
     if negb (ok healthCheck) then throw (JS.mkError connectionFailed)
     else mret ())
    (λ _, throw (JS.mkError connectionFailed)).

(** The outer [catch]. *)
Definition rethrow {A} (error : JS.error) : io A :=
  if bool_decide (JS.message error = JS.lit "Failed to fetch")
  then throw (JS.mkError connectionFailed)
  else throw error.

Definition transcribeAudio (audioBlob : list byte) : io (option JS.str) :=
  catch
    (_ ← healthCheck;
     response ← fetch (Transcribe audioBlob (JS.lit "recording.webm")) None;
     if negb (ok response) then
       error ← jsonOf response;
       throw (JS.mkError (orElse (j_error error) (JS.lit "Failed to transcribe audio")))
     else
       data ← jsonOf response;
       mret (j_text data))
    rethrow.

Definition generateSpeech (text : JS.str) : io (list byte) :=
  catch
    (_ ← healthCheck;
     response ← fetch (Speech {| Server.text := JS.Str text;
                                 Server.voice := JS.Undefined |}) None;
     if negb (ok response) then
       error ← jsonOf response;
       throw (JS.mkError (orElse (j_error error) (JS.lit "Failed to generate speech")))
     else
       mret (bytes response))
    rethrow.

End Gateway.

(** ** The stand-alone helpers (src/audioUtils.js) *)

Module AudioUtils.
Import Net.

(** It only warns about blobs over 5 MB. *)
Definition optimizeAudioForTranscription (audioBlob : list byte) : list byte :=
  audioBlob.

Definition transcriptionTimedOut : JS.str :=
  JS.lit "Transcription request timed out. Try a shorter recording (under 10 seconds).".

Definition speechTimedOut : JS.str :=
  JS.lit "Speech generation request timed out. Try shorter text.".

Definition transcribeAudio (audioBlob : list byte) : io (option JS.str) :=
  let optimizedBlob := optimizeAudioForTranscription audioBlob in
  catch
    (response ← fetch (Transcribe optimizedBlob (JS.lit "recording.webm")) (Some 30000);
     if negb (ok response) then
       errorData ← jsonOf response;
       throw (JS.mkError (orElse (j_error errorData) (JS.lit "Transcription failed")))
     else
       data ← jsonOf response;
       mret (j_text data))
    (λ error,
       if bool_decide (JS.name error = JS.lit "AbortError")
       then throw (JS.mkError transcriptionTimedOut)
       else throw error).

(** [voice] is [None] when the caller omits it: the parameter default
    is 'alloy'. *)
Definition generateSpeech (text : JS.str) (voice : option JS.str) : io (list byte) :=
  let voice := default (JS.lit "alloy") voice in
  catch
    (response ← fetch (Speech {| Server.text := JS.Str text;
                                 Server.voice := JS.Str voice |}) (Some 30000);
     if negb (ok response) then
       errorData ← jsonOf response;
       throw (JS.mkError (orElse (j_error errorData) (JS.lit "Speech generation failed")))
     else
       mret (bytes response))
    (λ error,
       if bool_decide (JS.name error = JS.lit "AbortError")
       then throw (JS.mkError speechTimedOut)
       else throw error).

End AudioUtils.

(** ** The recording and playback controller
       (src/src/components/VoiceControls.tsx) *)

Module VoiceControls.
Import Net.

Definition MAX_RECORDING_TIME : Z := 10.
Definition RATE_LIMIT_DELAY : Z := 1000.

(** [useAppStore]: one store for the whole page. *)
Record store := Store {
  isEnabled : bool;
  isSpeaking : bool;
  isListening : bool;
}.

Definition setIsSpeaking (b : bool) (st : store) : store :=
  {| isEnabled := isEnabled st; isSpeaking := b; isListening := isListening st |}.

Definition setIsListening (b : bool) (st : store) : store :=
  {| isEnabled := isEnabled st; isSpeaking := isSpeaking st; isListening := b |}.

Inductive recordingState := Inactive | Recording | Paused.

#[global] Instance recordingState_eq_dec : EqDecision recordingState.
Proof. solve_decision. Defined.

Inductive trackState := Live | Ended.

(** A [MediaRecorder]: its [state] and the tracks of its [stream]. *)
Record mediaRecorder := MediaRecorder {
  state : recordingState;
  stream : list trackState;
}.

(** The element behind [targetRef]. *)
Inductive element :=
| TextArea (value : JS.str)
| Div (textContent : JS.str).

(** The [type] prop. *)
Inductive kind := Input | Output.

(** The [Audio] element: the blob behind its [src], if any. *)
Record audio := Audio { src : option (list byte) }.

(** The refs and state of one mounted component. *)
Record instance := Instance {
  type : kind;
  targetRef : option element;
  mediaRecorderRef : option mediaRecorder;
  audioChunks : list (list byte);
  isRecording : bool;
  error : option JS.str;
  audioRef : option audio;
  timeLeft : Z;
  isProcessing : bool;
  lastApiCallRef : Z;
  hasPermission : option bool;
}.

Definition setTarget (v : option element) (i : instance) : instance :=
  Instance (type i) v (mediaRecorderRef i) (audioChunks i) (isRecording i) (error i)
    (audioRef i) (timeLeft i) (isProcessing i) (lastApiCallRef i) (hasPermission i).

Definition setMediaRecorder (v : option mediaRecorder) (i : instance) : instance :=
  Instance (type i) (targetRef i) v (audioChunks i) (isRecording i) (error i)
    (audioRef i) (timeLeft i) (isProcessing i) (lastApiCallRef i) (hasPermission i).

Definition setAudioChunks (v : list (list byte)) (i : instance) : instance :=
  Instance (type i) (targetRef i) (mediaRecorderRef i) v (isRecording i) (error i)
    (audioRef i) (timeLeft i) (isProcessing i) (lastApiCallRef i) (hasPermission i).

Definition setError (v : option JS.str) (i : instance) : instance :=
  Instance (type i) (targetRef i) (mediaRecorderRef i) (audioChunks i) (isRecording i) v
    (audioRef i) (timeLeft i) (isProcessing i) (lastApiCallRef i) (hasPermission i).

Definition setAudio (v : option audio) (i : instance) : instance :=
  Instance (type i) (targetRef i) (mediaRecorderRef i) (audioChunks i) (isRecording i)
    (error i) v (timeLeft i) (isProcessing i) (lastApiCallRef i) (hasPermission i).

Definition setTimeLeft (v : Z) (i : instance) : instance :=
  Instance (type i) (targetRef i) (mediaRecorderRef i) (audioChunks i) (isRecording i)
    (error i) (audioRef i) v (isProcessing i) (lastApiCallRef i) (hasPermission i).

Definition setIsProcessing (v : bool) (i : instance) : instance :=
  Instance (type i) (targetRef i) (mediaRecorderRef i) (audioChunks i) (isRecording i)
    (error i) (audioRef i) (timeLeft i) v (lastApiCallRef i) (hasPermission i).

Definition setLastApiCall (v : Z) (i : instance) : instance :=
  Instance (type i) (targetRef i) (mediaRecorderRef i) (audioChunks i) (isRecording i)
    (error i) (audioRef i) (timeLeft i) (isProcessing i) v (hasPermission i).

Definition setHasPermission (v : option bool) (i : instance) : instance :=
  Instance (type i) (targetRef i) (mediaRecorderRef i) (audioChunks i) (isRecording i)
    (error i) (audioRef i) (timeLeft i) (isProcessing i) (lastApiCallRef i) v.

(** [setIsRecording] together with the effect that depends on
    [isRecording]: when the flag changes, the countdown restarts from
    [MAX_RECORDING_TIME]. *)
Definition setIsRecording (v : bool) (i : instance) : instance :=
  let i' :=
    Instance (type i) (targetRef i) (mediaRecorderRef i) (audioChunks i) v (error i)
      (audioRef i) (timeLeft i) (isProcessing i) (lastApiCallRef i) (hasPermission i) in
  if eqb (isRecording i) v then i' else setTimeLeft MAX_RECORDING_TIME i'.
Arguments setIsRecording : simpl never.

Definition pleaseWait : JS.str :=
  JS.lit "Please wait a moment before making another request.".

Definition checkRateLimit (now : Z) (i : instance) : bool * instance :=
  if now - lastApiCallRef i <? RATE_LIMIT_DELAY
  then (false, setError (Some pleaseWait) i)
  else (true, setLastApiCall now i).

(** The browser's answer to the permission query and [getUserMedia]:
    a stream of live tracks, or an error. *)
Inductive micAnswer :=
| Granted (tracks : list trackState)
| Refused (e : JS.error).

Definition micError (e : JS.error) : JS.error :=
  if bool_decide (JS.name e = JS.lit "NotAllowedError") then
    JS.mkError (JS.lit "Microphone access denied. Please allow microphone access in your browser settings and try again.")
  else if bool_decide (JS.name e = JS.lit "NotFoundError") then
    JS.mkError (JS.lit "No microphone found. Please connect a microphone and try again.")
  else if bool_decide (JS.name e = JS.lit "NotReadableError") then
    JS.mkError (JS.lit "Could not access microphone. The device may be in use by another application.")
  else
    JS.mkError (JS.lit "Could not access microphone. Please check your settings and try again.").

Definition requestMicrophonePermission (mic : micAnswer) (i : instance)
  : (JS.error + list trackState) * instance :=
  match mic with
  | Granted tracks => (inr tracks, setError None (setHasPermission (Some true) i))
  | Refused e => (inl (micError e), setHasPermission (Some false) i)
  end.

(** [targetRef.current.value = v] when the target is a textarea. *)
Definition writeTextArea (v : JS.str) (i : instance) : instance :=
  match targetRef i with
  | Some (TextArea _) => setTarget (Some (TextArea v)) i
  | _ => i
  end.

Definition startRecording (now : Z) (mic : micAnswer) (i : instance) (st : store)
  : instance * store :=
  let '(ok, i) := checkRateLimit now i in
  if negb ok then (i, st)
  else
    let i := setError None i in
    let i := setIsProcessing false i in
    let i := writeTextArea [] i in
    match requestMicrophonePermission mic i with
    | (inr tracks, i) =>
        let i := setMediaRecorder (Some {| state := Recording; stream := tracks |}) i in
        let i := setAudioChunks [] i in
        (setIsRecording true i, setIsListening true st)
    | (inl e, i) =>
        let i := setError (Some (JS.message e)) i in
        (setIsRecording false i, setIsListening false st)
    end.

(** [ondataavailable] *)
Definition ondataavailable (data : list byte) (i : instance) : instance :=
  if (0 <? length data)%nat then setAudioChunks (audioChunks i ++ [data]) i else i.

(** [MediaRecorder.stop()]: an inactive recorder raises
    [InvalidStateError]. *)
Definition recorderStop (r : mediaRecorder) : JS.error + mediaRecorder :=
  match state r with
  | Inactive =>
      inl {| JS.name := JS.lit "InvalidStateError";
             JS.message := JS.lit "The MediaRecorder's state is 'inactive'.";
             JS.status := None |}
  | _ => inr {| state := Inactive; stream := stream r |}
  end.

(** [stream.getTracks().forEach(track => track.stop())] *)
Definition stopTracks (r : mediaRecorder) : mediaRecorder :=
  {| state := state r; stream := (λ _, Ended) <$> stream r |}.

Definition stopRecording (i : instance) : JS.error + instance :=
  match mediaRecorderRef i with
  | Some r =>
      match state r with
      | Inactive => inr i
      | _ =>
          match recorderStop r with
          | inl e => inl e
          | inr r => inr (setMediaRecorder (Some (stopTracks r)) i)
          end
      end
  | None => inr i
  end.

(** The [onstop] handler of the recorder. *)
Definition onstop (i : instance) (st : store) (net : network)
  : instance * store * list call :=
  let audioBlob := concat (audioChunks i) in
  let i := setIsProcessing true i in
  let finally (i : instance) :=
    (setIsRecording false (setIsProcessing false i), setIsListening false st) in
  match Gateway.transcribeAudio audioBlob net with
  | (Value text, t) =>
      (finally (writeTextArea (default (JS.lit "undefined") text) i), t)
  | (Throws e, t) => (finally (setError (Some (JS.message e)) i), t)
  | (Pending, t) => (i, st, t)
  end.

(** One run of the interval callback: the updater passed to
    [setTimeLeft]. *)
Definition tick (i : instance) : JS.error + instance :=
  if timeLeft i <=? 1 then
    match stopRecording i with
    | inl e => inl e
    | inr i => inr (setTimeLeft 0 i)
    end
  else inr (setTimeLeft (timeLeft i - 1) i).

Definition handleSpeechToText (now : Z) (mic : micAnswer) (i : instance) (st : store)
  : JS.error + instance * store :=
  if negb (isEnabled st) then inr (i, st)
  else if isRecording i then
    match stopRecording i with
    | inl e => inl e
    | inr i => inr (i, st)
    end
  else inr (startRecording now mic i st).

(** [play] is the outcome of [audioRef.current.play()]: [None] when
    playback starts. *)
Definition handleTextToSpeech (now : Z) (play : option JS.error)
    (i : instance) (st : store) (net : network)
  : instance * store * list call :=
  match audioRef i with
  | Some _ =>
    if negb (isEnabled st) then (i, st, [])
    else
      let '(ok, i) := checkRateLimit now i in
      if negb ok then (i, st, [])
      else
        let text :=
          match targetRef i with
          | Some (Div textContent) => textContent
          | Some (TextArea value) => value
          | None => []
          end in
        if bool_decide (JS.trim text = []) then
          (setError (Some (JS.lit "Please enter some text to convert to speech")) i, st, [])
        else
          let i := setError None i in
          let st := setIsSpeaking true st in
          let i := setIsProcessing true i in
          match Gateway.generateSpeech text net with
          | (Value audioData, t) =>
              let i := setAudio (Some {| src := Some audioData |}) i in
              let i := setIsProcessing false i in
              match play with
              | None => (i, st, t)
              | Some e =>
                  (setIsProcessing false (setError (Some (JS.message e)) i),
                   setIsSpeaking false st, t)
              end
          | (Throws e, t) =>
              (setIsProcessing false (setError (Some (JS.message e)) i),
               setIsSpeaking false st, t)
          | (Pending, t) => (i, st, t)
          end
  | None => (i, st, [])
  end.

(** [audioRef.current.onended] *)
Definition onended (st : store) : store := setIsSpeaking false st.

(** What the environment supplies to a click. *)
Record browser := Browser {
  now : Z;
  mic : micAnswer;
  play : option JS.error;
  net : network;
}.

(** The button: [onClick={type === 'input' ? handleSpeechToText :
    handleTextToSpeech}] with [disabled={isProcessing}]; nothing is
    rendered when the controls are disabled, and a disabled button does
    not run its handler. *)
Definition onClick (env : browser) (i : instance) (st : store)
  : JS.error + instance * store * list call :=
  if negb (isEnabled st) then inr (i, st, [])
  else if isProcessing i then inr (i, st, [])
  else
    match type i with
    | Input =>
        match handleSpeechToText (now env) (mic env) i st with
        | inl e => inl e
        | inr (i, st) => inr (i, st, [])
        end
    | Output => inr (handleTextToSpeech (now env) (play env) i st (net env))
    end.

(** A freshly mounted component, after its mount effect. *)
Definition mount (type : kind) (target : element) : instance :=
  {| type := type;
     targetRef := Some target;
     mediaRecorderRef := None;
     audioChunks := [];
     isRecording := false;
     error := None;
     audioRef := Some {| src := None |};
     timeLeft := MAX_RECORDING_TIME;
     isProcessing := false;
     lastApiCallRef := 0;
     hasPermission := None |}.

End VoiceControls.

(** ** The page (App) *)

Module App.
Import Net VoiceControls.

(** The store and the two mounted [VoiceControls]: one of type input on
    the textarea, one of type output on the text block. *)
Record page := Page {
  appStore : store;
  input : instance;
  output : instance;
}.

Definition initial : page :=
  {| appStore := {| isEnabled := true; isSpeaking := false; isListening := false |};
     input := mount Input (TextArea []);
     output := mount Output
       (Div (JS.lit "This is a sample text that can be read aloud. Click the speaker icon to hear it.")) |}.

(** A click on the microphone button of the textarea. *)
Definition clickInput (env : browser) (p : page) : JS.error + page * list call :=
  match onClick env (input p) (appStore p) with
  | inl e => inl e
  | inr (i, st, t) => inr ({| appStore := st; input := i; output := output p |}, t)
  end.

(** A click on the speaker button of the text block. *)
Definition clickOutput (env : browser) (p : page) : JS.error + page * list call :=
  match onClick env (output p) (appStore p) with
  | inl e => inl e
  | inr (i, st, t) => inr ({| appStore := st; input := input p; output := i |}, t)
  end.

End App.

(** ** Concrete providers, networks and browsers used in the examples *)

Module Scenario.
Import Server Net VoiceControls.

(** The provider refusing the key: an error carrying HTTP status 401. *)
Definition unauthorized : synthesizer :=
  λ _, Failed {| JS.name := JS.lit "Error";
                 JS.message := JS.lit "401 Incorrect API key provided";
                 JS.status := Some 401 |}.

(** A provider that answers every call with three bytes. *)
Definition threeBytes : synthesizer := λ _, Fulfilled [x49; x44; x33]%byte.

Definition heard : transcriber := λ _, Fulfilled (Some (JS.lit "hello")).

Definition hello : speechBody :=
  {| text := JS.Str (JS.lit "hello"); voice := JS.Undefined |}.

(** 4001 spaces. *)
Definition blanks : speechBody :=
  {| text := JS.Str (replicate 4001 32%N); voice := JS.Undefined |}.

(** 4001 times the letter a. *)
Definition longText : JS.str := replicate 4001 97%N.

(** Two speech requests of one client, 500 ms apart. *)
Definition firstPost : Relay.event :=
  {| Relay.ev_ip := "203.0.113.7"; Relay.ev_now := 1700000000000;
     Relay.ev_request := Relay.PostSpeech threeBytes hello |}.

Definition secondPost : Relay.event :=
  {| Relay.ev_ip := "203.0.113.7"; Relay.ev_now := 1700000000500;
     Relay.ev_request := Relay.PostSpeech threeBytes hello |}.

Definition okHealth : Net.response :=
  {| ok := true; json := Some {| j_error := None; j_text := None |}; bytes := [] |}.

Definition okText : Net.response :=
  {| ok := true;
     json := Some {| j_error := None; j_text := Some (JS.lit "hello") |};
     bytes := [] |}.

Definition okAudio : Net.response :=
  {| ok := true; json := None; bytes := [x49; x44; x33]%byte |}.

(** A relay that answers the health request after 5 ms and the main
    requests after [ms] ms. *)
Definition relayAfter (ms : Z) : network := λ ep,
  match ep with
  | Health => {| latency := Some 5; answer := Resolved okHealth |}
  | Transcribe _ _ => {| latency := Some ms; answer := Resolved okText |}
  | Speech _ => {| latency := Some ms; answer := Resolved okAudio |}
  end.

(** The health request is answered, the main request fails in the
    network layer with the given message. *)
Definition dropsMain (msg : JS.str) : network := λ ep,
  match ep with
  | Health => {| latency := Some 5; answer := Resolved okHealth |}
  | _ => {| latency := Some 20; answer := Rejected (JS.TypeError msg) |}
  end.

(** No relay: every request is refused at once. *)
Definition noRelay : network := λ _,
  {| latency := Some 1; answer := Rejected (JS.TypeError (JS.lit "Failed to fetch")) |}.

Definition sample : list byte := [x1a; x45; xdf; xa3]%byte.


Definition secondClick : browser :=
  {| now := 1700000000500; mic := Granted [Live]; play := None; net := relayAfter 800 |}.

Definition deniedClick : browser :=
  {| now := 1700000000000;
     mic := Refused {| JS.name := JS.lit "NotAllowedError";
                       JS.message := JS.lit "Permission denied";
                       JS.status := None |};
     play := None; net := relayAfter 800 |}.

(** A component that is recording on a stream of two tracks, with one
    second left on the countdown. *)
Definition recording : instance :=
  {| type := Input;
     targetRef := Some (TextArea []);
     mediaRecorderRef := Some {| state := Recording; stream := [Live; Live] |};
     audioChunks := [sample];
     isRecording := true;
     error := None;
     audioRef := Some {| src := None |};
     timeLeft := 1;
     isProcessing := false;
     lastApiCallRef := 1700000000000;
     hasPermission := Some true |}.

(** A component whose textarea holds a draft. *)
Definition drafted : instance :=
  mount Input (TextArea (JS.lit "draft")).

Definition enabled : store :=
  {| isEnabled := true; isSpeaking := false; isListening := false |}.

End Scenario.

(** ** What the network did to a request *)

Module Outcome.
Import Net.

(** The request settled without a successful response: it was rejected
    or answered with a non-ok status. *)
Definition down (rt : roundTrip) : bool :=
  match latency rt, answer rt with
  | Some _, Rejected _ => true
  | Some _, Resolved r => negb (ok r)
  | None, _ => false
  end.

(** The request was answered with an ok status. *)
Definition up (rt : roundTrip) : bool :=
  match latency rt, answer rt with
  | Some _, Resolved r => ok r
  | _, _ => false
  end.


(** The calls the client code issues. *)
Definition healthFetch : call := {| target := Health; abortAfter := None |}.

Definition transcribeFetch (audio : list byte) : call :=
  {| target := Transcribe audio (JS.lit "recording.webm"); abortAfter := None |}.

Definition speechFetch (text : JS.str) : call :=
  {| target := Speech {| Server.text := JS.Str text; Server.voice := JS.Undefined |};
     abortAfter := None |}.



(** What the outer [catch] of the gateway makes of an error. *)
Definition normalized (e : JS.error) : JS.error :=
  if bool_decide (JS.message e = JS.lit "Failed to fetch")
  then JS.mkError Gateway.connectionFailed
  else e.

End Outcome.

(** ** Mounting, unmounting and the power switch *)

Module Lifecycle.
Import Net VoiceControls App.

(** The cleanup of the mount effect of [VoiceControls]. *)
Definition unmount (i : instance) : JS.error + instance :=
  match mediaRecorderRef i with
  | Some r =>
      match state r with
      | Inactive => inr i
      | _ =>
          match recorderStop r with
          | inl e => inl e
          | inr r => inr (setMediaRecorder (Some (stopTracks r)) i)
          end
      end
  | None => inr i
  end.

(** [n] runs of the interval callback, one per second, while the
    component is recording. *)
Fixpoint ticks (n : nat) (i : instance) : JS.error + instance :=
  match n with
  | O => inr i
  | S n =>
      match tick i with
      | inl e => inl e
      | inr i => ticks n i
      end
  end.

(** [toggleEnabled] of the store. *)
Definition toggleEnabled (st : store) : store :=
  {| isEnabled := negb (isEnabled st);
     isSpeaking := isSpeaking st;
     isListening := isListening st |}.

(** The power button of [FloatingControls]. *)
Definition clickPower (p : page) : page :=
  {| appStore := toggleEnabled (appStore p); input := input p; output := output p |}.


End Lifecycle.

(** ** The client talking to the relay *)

Module Wire.
Import Net.

(** [response.ok]: a status from 200 to 299. *)
Definition okStatus (st : Z) : bool := (200 <=? st) && (st <=? 299).

(** A response of the relay as the client's [fetch] receives it.  The
    bytes of a JSON body are those of [encode]; an audio body is bytes
    only. *)
Definition toClient (encode : Server.body → list byte) (r : Server.response)
  : Net.response :=
  {| ok := okStatus (Server.status r);
     json :=
       match Server.payload r with
       | Server.JsonError msg => Some {| j_error := Some msg; j_text := None |}
       | Server.JsonText text => Some {| j_error := None; j_text := Some text |}
       | Server.JsonStatus _ => Some {| j_error := None; j_text := None |}
       | Server.Binary _ => None
       end;
     bytes :=
       match Server.payload r with
       | Server.Binary b => b
       | other => encode other
       end |}.

(** The relay and its provider, as seen by one client. *)
Record relay := Relay {
  encode : Server.body → list byte;
  transcriber : Server.transcriber;
  synthesizer : Server.synthesizer;
  ip : string;
  now : Z;
  rateLimit : gmap string Z;
  mimetype : JS.str;     (* the type of the uploaded blob *)
  delay : Z;             (* the time an answer takes *)
}.

(** /api/health, /api/transcribe (the upload arrives as [req.file],
    field 'audio') and /api/speech, each answered after [delay] ms by
    the handler of the relay. *)
Definition viaRelay (s : relay) : network := λ ep,
  {| latency := Some (delay s);
     answer := Resolved (toClient (encode s)
       match ep with
       | Health => Server.health
       | Transcribe audio filename =>
           (Server.transcribe (transcriber s) (ip s) (now s)
              (Some {| Server.buffer := audio;
                       Server.originalname := filename;
                       Server.mimetype := mimetype s |})
              (rateLimit s)).1.1
       | Speech body =>
           (Server.speech (synthesizer s) (ip s) (now s) body (rateLimit s)).1.1
       end) |}.

End Wire.

(** ** Further providers, relays and components used in the examples *)

Module Fixtures.
Import Server Net VoiceControls Scenario.

(** A provider error that mentions a time-out and carries status 401. *)
Definition slowAndUnauthorized : JS.error :=
  {| JS.name := JS.lit "Error";
     JS.message := JS.lit "Connection timeout while authenticating";
     JS.status := Some 401 |}.

Definition badKey : JS.error :=
  {| JS.name := JS.lit "Error";
     JS.message := JS.lit "401 Incorrect API key provided";
     JS.status := Some 401 |}.

Definition refusesKey : transcriber := λ _, Failed badKey.

Definition upload : file :=
  {| buffer := sample; originalname := JS.lit "recording.webm";
     mimetype := JS.lit "audio/webm" |}.

Definition nova : speechBody :=
  {| text := JS.Str (JS.lit " hello "); voice := JS.Str (JS.lit "nova") |}.

Definition otherPost : Relay.event :=
  {| Relay.ev_ip := "198.51.100.2"; Relay.ev_now := 1700000000200;
     Relay.ev_request := Relay.PostTranscribe heard (Some upload) |}.

Definition healthGet : Relay.event :=
  {| Relay.ev_ip := "203.0.113.7"; Relay.ev_now := 1700000000100;
     Relay.ev_request := Relay.GetHealth |}.

(** A relay with an empty limiter whose provider hears "hello" and
    speaks three bytes. *)
Definition freshRelay : Wire.relay :=
  {| Wire.encode := λ _, [];
     Wire.transcriber := heard;
     Wire.synthesizer := threeBytes;
     Wire.ip := "203.0.113.7";
     Wire.now := 1700000000000;
     Wire.rateLimit := ∅;
     Wire.mimetype := JS.lit "audio/webm";
     Wire.delay := 800 |}.

(** The same relay half a second after it accepted a request of this
    client. *)
Definition busyRelay : Wire.relay :=
  {| Wire.encode := λ _, [];
     Wire.transcriber := heard;
     Wire.synthesizer := threeBytes;
     Wire.ip := "203.0.113.7";
     Wire.now := 1700000000500;
     Wire.rateLimit := {[ "203.0.113.7"%string := 1700000000000 ]};
     Wire.mimetype := JS.lit "audio/webm";
     Wire.delay := 800 |}.

(** The error of [response.json()] on a body that is not JSON. *)
Definition syntaxError : JS.error :=
  {| JS.name := JS.lit "SyntaxError";
     JS.message := JS.lit "Unexpected token in JSON";
     JS.status := None |}.

(** Nothing ever answers. *)
Definition silent : network := λ _,
  {| latency := None; answer := Rejected (JS.TypeError (JS.lit "Failed to fetch")) |}.

(** The relay answers the main request 403 with a page that is not
    JSON. *)
Definition forbiddenPage : network := λ ep,
  match ep with
  | Health => {| latency := Some 5; answer := Resolved okHealth |}
  | _ => {| latency := Some 20;
            answer := Resolved {| ok := false; json := None; bytes := [] |} |}
  end.

(** The relay answers the main request 500 with an error body. *)
Definition failing (msg : option JS.str) : network := λ ep,
  match ep with
  | Health => {| latency := Some 5; answer := Resolved okHealth |}
  | _ => {| latency := Some 20;
            answer := Resolved {| ok := false;
                                  json := Some {| j_error := msg; j_text := None |};
                                  bytes := [] |} |}
  end.

(** A component at the start of a recording on one track. *)
Definition started : instance :=
  (startRecording 1700000000000 (Granted [Live]) (mount Input (TextArea [])) enabled).1.

Definition refusal (name : string) : micAnswer :=
  Refused {| JS.name := JS.lit name; JS.message := JS.lit "refused";
             JS.status := None |}.

(** The output component on an empty text block. *)
Definition emptyBlock : instance := mount Output (Div (JS.lit "   ")).

Definition disabled : store :=
  {| isEnabled := false; isSpeaking := false; isListening := false |}.

End Fixtures.

(** ** Properties of the relay server *)

Module ServerFacts.
Import Server Relay Scenario.

Lemma checkRateLimit_reject ip now m :
  (checkRateLimit ip now m).1 = false →
  now - lastRequest ip m < RATE_LIMIT_WINDOW ∧ (checkRateLimit ip now m).2 = m.
Proof.
  unfold checkRateLimit.
  destruct (Z.ltb_spec (now - lastRequest ip m) RATE_LIMIT_WINDOW); simpl; [done|discriminate].
Qed.

Lemma checkRateLimit_accept ip now m :
  (checkRateLimit ip now m).1 = true →
  RATE_LIMIT_WINDOW ≤ now - lastRequest ip m
  ∧ (checkRateLimit ip now m).2 = <[ip := now]> m.
Proof.
  unfold checkRateLimit.
  destruct (Z.ltb_spec (now - lastRequest ip m) RATE_LIMIT_WINDOW); simpl; [discriminate|done].
Qed.

Lemma lastRequest_stored ip m t : m !! ip = Some t → lastRequest ip m = t.
Proof.
  unfold lastRequest. intros ->. destruct (Z.eqb_spec t 0); congruence.
Qed.

Lemma lastRequest_fresh ip m : m !! ip = None → lastRequest ip m = 0.
Proof. unfold lastRequest. by intros ->. Qed.

Lemma speechCatch_not_gate e : speechCatch e ≠ tooManyRequests.
Proof.
  unfold speechCatch, speechError, tooManyRequests, json. intros H.
  apply (f_equal payload) in H. simpl in H.
  destruct (_ || _); vm_compute in H; discriminate.
Qed.

Lemma transcribeError_not_gate e :
  transcribeError e ≠ JS.lit "Too many requests. Please wait a moment.".
Proof.
  unfold transcribeError.
  repeat (match goal with |- context [if ?c then _ else _] => destruct c end);
    vm_compute; discriminate.
Qed.

(** The gate's verdict decides the handler's answer and limiter,
    whatever the payload and the provider do. *)
Lemma speech_gate openai ip now b m :
  let '(r, m', calls) := speech openai ip now b m in
  if (checkRateLimit ip now m).1
  then r ≠ tooManyRequests ∧ m' = <[ip := now]> m
  else r = tooManyRequests ∧ m' = m ∧ calls = [].
Proof.
  unfold speech.
  destruct (checkRateLimit ip now m) as [ok m1] eqn:E.
  pose proof (checkRateLimit_accept ip now m) as Ha.
  pose proof (checkRateLimit_reject ip now m) as Hr.
  rewrite E in Ha, Hr. simpl in *.
  destruct ok; simpl.
  - destruct Ha as [_ ->]; [done|].
    destruct (JS.truthy (text b)); simpl; [|split; [discriminate|done]].
    destruct (text b); try (split; [apply speechCatch_not_gate|done]).
    case_bool_decide; [split; [discriminate|done]|].
    destruct (4000 <? _); [split; [discriminate|done]|].
    destruct (openai _); (split; [|done]); [discriminate|apply speechCatch_not_gate].
  - destruct Hr as [_ ->]; done.
Qed.

Lemma transcribe_gate openai ip now f m :
  let '(r, m', calls) := transcribe openai ip now f m in
  if (checkRateLimit ip now m).1
  then r ≠ tooManyRequests ∧ m' = <[ip := now]> m
  else r = tooManyRequests ∧ m' = m ∧ calls = [].
Proof.
  unfold transcribe.
  destruct (checkRateLimit ip now m) as [ok m1] eqn:E.
  pose proof (checkRateLimit_accept ip now m) as Ha.
  pose proof (checkRateLimit_reject ip now m) as Hr.
  rewrite E in Ha, Hr. simpl in *.
  destruct ok; simpl.
  - destruct Ha as [_ ->]; [done|].
    destruct f as [f|]; [|split; [discriminate|done]].
    destruct (openai _) as [[text|]|e]; try case_bool_decide;
      (split; [|done]); try discriminate.
    intros H. apply (f_equal payload) in H. simpl in H.
    injection H as H. by apply transcribeError_not_gate in H.
  - destruct Hr as [_ ->]; done.
Qed.

Lemma serve_gate ev m :
  isPost (ev_request ev) = true →
  if (checkRateLimit (ev_ip ev) (ev_now ev) m).1
  then (serve ev m).1 ≠ tooManyRequests ∧ (serve ev m).2 = <[ev_ip ev := ev_now ev]> m
  else (serve ev m).1 = tooManyRequests ∧ (serve ev m).2 = m.
Proof.
  unfold serve. destruct (ev_request ev) as [|openai f|openai b]; [discriminate| |]; intros _.
  - pose proof (transcribe_gate openai (ev_ip ev) (ev_now ev) f m) as H.
    destruct (transcribe _ _ _ _ _) as [[r m'] calls].
    destruct (checkRateLimit _ _ _).1; simpl; tauto.
  - pose proof (speech_gate openai (ev_ip ev) (ev_now ev) b m) as H.
    destruct (speech _ _ _ _ _) as [[r m'] calls].
    destruct (checkRateLimit _ _ _).1; simpl; tauto.
Qed.

Lemma serve_health ev m :
  isPost (ev_request ev) = false → serve ev m = (health, m).
Proof. unfold serve. by destruct (ev_request ev). Qed.

(** The limiter holds, for every key, exactly the time of its last
    accepted request. *)
Lemma step_invariant acc ev :
  (∀ ip, acc.2 !! ip = lastAccepted ip acc.1) →
  ∀ ip, (step acc ev).2 !! ip = lastAccepted ip (step acc ev).1.
Proof.
  intros Hinv ip. unfold step.
  destruct (serve ev acc.2) as [r m] eqn:E. simpl.
  destruct (isPost (ev_request ev)) eqn:Hp; simpl.
  - pose proof (serve_gate ev acc.2 Hp) as H. rewrite E in H. simpl in H.
    destruct (checkRateLimit _ _ _).1.
    + destruct H as [Hr ->].
      rewrite (bool_decide_eq_false_2 _ Hr). simpl.
      case_bool_decide as Hip; simpl.
      * subst ip. by rewrite lookup_insert_eq.
      * rewrite lookup_insert_ne; [apply Hinv|done].
    + destruct H as [-> ->].
      rewrite (bool_decide_eq_true_2 (tooManyRequests = tooManyRequests) eq_refl).
      rewrite andb_false_r. apply Hinv.
  - rewrite (serve_health ev acc.2 Hp) in E. injection E as <- <-. apply Hinv.
Qed.

Lemma run_invariant evs acc :
  (∀ ip, acc.2 !! ip = lastAccepted ip acc.1) →
  ∀ ip, (foldl step acc evs).2 !! ip = lastAccepted ip (foldl step acc evs).1.
Proof.
  revert acc. induction evs as [|ev evs IH]; intros acc Hinv; [done|].
  simpl. apply IH. by apply step_invariant.
Qed.

(** C1. Rate gate of the relay: after any run from an empty limiter, a
    further POST of key [ip] at clock value [now] (a [Date.now()] value,
    at least one window after the epoch) is answered with the 429
    rate-limit rejection if and only if fewer than 1000 ms have passed
    since the last accepted request of that key.  An accepted request
    stores [now] for the key whatever its payload and the provider do; a
    rejected one leaves the limiter as it was, so a later request is
    served exactly as if the rejected one had never arrived. *)
Theorem C1_rate_gate (evs : list event) (ev next : event)
    (Hpost : isPost (ev_request ev) = true)
    (Hclock : RATE_LIMIT_WINDOW ≤ ev_now ev) :
  let log := (run evs ∅).1 in
  let m := (run evs ∅).2 in
  let r := (serve ev m).1 in
  let m' := (serve ev m).2 in
  (r = tooManyRequests ↔
     ∃ t, lastAccepted (ev_ip ev) log = Some t ∧ ev_now ev - t < 1000)
  ∧ (r = tooManyRequests → status r = 429)
  ∧ (r ≠ tooManyRequests → m' = <[ev_ip ev := ev_now ev]> m)
  ∧ (r = tooManyRequests → m' = m ∧ serve next m' = serve next m).
Proof.
  intros log m r m'.
  assert (Hinv : m !! ev_ip ev = lastAccepted (ev_ip ev) log).
  { apply (run_invariant evs ([], ∅)). intros ip. apply lookup_empty. }
  pose proof (serve_gate ev m Hpost) as Hg. fold r m' in Hg.
  destruct (checkRateLimit (ev_ip ev) (ev_now ev) m).1 eqn:Hc.
  - destruct Hg as [Hr Hm].
    apply checkRateLimit_accept in Hc as [Hw _].
    repeat split; try done.
    intros (t & Ht & Hlt). rewrite <- Hinv in Ht.
    rewrite (lastRequest_stored _ _ _ Ht) in Hw. unfold RATE_LIMIT_WINDOW in Hw. lia.
  - destruct Hg as [Hr Hm].
    apply checkRateLimit_reject in Hc as [Hw _].
    repeat split; try done; try (by rewrite Hm); try (by rewrite Hr).
    intros _. destruct (m !! ev_ip ev) as [t|] eqn:Hl.
    + exists t. rewrite <- Hinv. split; [done|].
      rewrite (lastRequest_stored _ _ _ Hl) in Hw. exact Hw.
    + rewrite (lastRequest_fresh _ _ Hl) in Hw. lia.
Qed.


(** *** Failure statuses of POST /api/speech *)

Lemma statusOr500_cases e :
  (JS.status e = None ∨ JS.status e = Some 0) ∧ statusOr500 e = 500
  ∨ ∃ s, JS.status e = Some s ∧ s ≠ 0 ∧ statusOr500 e = s.
Proof.
  unfold statusOr500. destruct (JS.status e) as [s|]; [|left; auto].
  destruct (Z.eqb_spec s 0) as [->|Hs]; [left; auto|right; eauto].
Qed.

(** C4, counterexample. A first request with text "hello" passes the
    gate and the checks; the provider fails with status 401; the relay
    answers 401, which is none of 400, 429, 500. *)
Lemma C4_counterexample :
  let r := (speech unauthorized "203.0.113.7" 1700000000000 hello ∅).1.1 in
  status r = 401
  ∧ payload r = JsonError (JS.lit "Failed to generate speech.")
  ∧ ¬ (status r = 400 ∨ status r = 429 ∨ status r = 500).
Proof. vm_compute. repeat split; intros [H|[H|H]]; discriminate. Qed.

(** Case analysis on the conditions of a statement about the handler. *)
Ltac c4_cases :=
  repeat match goal with
         | |- _ ∧ _ => split
         | |- _ → _ => intro
         | |- ∀ _, _ => intro
         | H : _ ∨ _ |- _ => destruct H
         | H : ∃ _, _ |- _ => destruct H
         | H : _ ∧ _ |- _ => destruct H
         | H : ∀ s, JS.Str ?x ≠ JS.Str s |- _ => destruct (H x eq_refl)
         end;
  simplify_eq/=; try done; try lia.

(** C4, amended. A request to POST /api/speech that is not answered
    with audio falls under exactly one of five cases, and each case has
    its answer: turned away by the gate, 429; passed the gate with a
    missing, empty or blank text, 400 "No text provided"; with a text
    that is not blank and longer than 4000, 400 "Text too long"; with a
    true text that is not a string, 500 with the generic message; with a
    valid text for which the provider fails with an error [e], the
    status of [e] when it carries a non-zero one and 500 otherwise, with
    the time-out message when the message of [e] mentions "timeout" or
    "socket hang up" and the generic message otherwise. *)
Theorem C4_speech_failure_status (openai : synthesizer) (ip : string) (now : Z)
    (b : speechBody) (m : limiter)
    (Hfail : ∀ bytes, payload (speech openai ip now b m).1.1 ≠ Binary bytes) :
  let r := (speech openai ip now b m).1.1 in
  let passed := (checkRateLimit ip now m).1 in
  let call s := {| s_model := JS.lit "tts-1";
                   s_voice := JS.or (voice b) (JS.Str (JS.lit "alloy"));
                   s_input := s |} in
  (passed = false
   ∨ passed = true
     ∧ (JS.truthy (text b) = false ∨ ∃ s, text b = JS.Str s ∧ JS.trim s = [])
   ∨ passed = true
     ∧ (∃ s, text b = JS.Str s ∧ JS.trim s ≠ [] ∧ 4000 < Z.of_nat (length s))
   ∨ passed = true ∧ JS.truthy (text b) = true ∧ (∀ s, text b ≠ JS.Str s)
   ∨ passed = true
     ∧ (∃ s e, text b = JS.Str s ∧ JS.trim s ≠ [] ∧ Z.of_nat (length s) ≤ 4000
             ∧ openai (call s) = Failed e))
  ∧ (passed = false →
       status r = 429
       ∧ payload r = JsonError (JS.lit "Too many requests. Please wait a moment."))
  ∧ (passed = true →
     (JS.truthy (text b) = false ∨ ∃ s, text b = JS.Str s ∧ JS.trim s = []) →
       status r = 400 ∧ payload r = JsonError (JS.lit "No text provided"))
  ∧ (passed = true →
     ∀ s, text b = JS.Str s → JS.trim s ≠ [] → 4000 < Z.of_nat (length s) →
       status r = 400
       ∧ payload r = JsonError (JS.lit "Text too long. Maximum length is 4000 characters."))
  ∧ (passed = true → JS.truthy (text b) = true → (∀ s, text b ≠ JS.Str s) →
       status r = 500 ∧ payload r = JsonError (JS.lit "Failed to generate speech."))
  ∧ (passed = true →
     ∀ s e, text b = JS.Str s → JS.trim s ≠ [] → Z.of_nat (length s) ≤ 4000 →
       openai (call s) = Failed e →
       status r = match JS.status e with
                  | Some 0 | None => 500
                  | Some st => st
                  end
       ∧ payload r
         = JsonError
             (if JS.includes (JS.message e) (JS.lit "timeout")
                 || JS.includes (JS.message e) (JS.lit "socket hang up")
              then JS.lit "Request timed out. Consider using shorter text in StackBlitz environment."
              else JS.lit "Failed to generate speech.")).
Proof.
  intros r passed call. revert Hfail. unfold r, passed, call. clear r passed call.
  unfold speech. destruct (checkRateLimit ip now m) as [ok m1]. simpl.
  destruct ok; simpl; [|intros _; split; [by left|c4_cases]].
  destruct (text b) as [| |bb|n|s|] eqn:Et; simpl.
  - intros _. split; [right; left; auto|c4_cases].
  - intros _. split; [right; left; auto|c4_cases].
  - destruct bb; simpl; intros _.
    + split; [right; right; right; left; repeat split; done|c4_cases].
    + split; [right; left; auto|c4_cases].
  - destruct (Z.eqb_spec n 0) as [->|Hn]; simpl; intros _.
    + split; [right; left; auto|c4_cases].
    + assert (Ht : negb (n =? 0) = true) by (by destruct (Z.eqb_spec n 0)).
      split; [right; right; right; left; repeat split; done|c4_cases].
  - destruct (bool_decide_reflect (s = [])) as [->|Hs]; simpl.
    { intros _. split; [right; left; split; [done|]; right; by exists []|c4_cases]. }
    destruct (bool_decide_reflect (JS.trim s = [])) as [Ht|Ht]; simpl.
    { intros _. split; [right; left; split; [done|]; right; by exists s|c4_cases]. }
    destruct (Z.ltb_spec 4000 (Z.of_nat (length s))) as [Hl|Hl]; simpl.
    { intros _. split; [right; right; left; split; [done|]; by exists s|c4_cases]. }
    destruct (openai _) as [bytes|e] eqn:Eo; simpl.
    { intros Hfail. by destruct (Hfail bytes). }
    intros _. split.
    { right; right; right; right. split; [done|]. by exists s, e. }
    c4_cases.
    + assert (e0 = e) as -> by congruence.
      unfold statusOr500. by destruct (JS.status e) as [[| |]|].
    + by assert (e0 = e) as -> by congruence.
  - intros _. split; [right; right; right; left; repeat split; done|c4_cases].
Qed.

(** C4 at the provider that answers 401. *)
Lemma C4_speech_failure_status_witness :
  status (speech unauthorized "203.0.113.7" 1700000000000 hello ∅).1.1 = 401
  ∧ payload (speech unauthorized "203.0.113.7" 1700000000000 hello ∅).1.1
    = JsonError (JS.lit "Failed to generate speech.").
Proof.
  assert (Hfail : ∀ bytes,
            payload (speech unauthorized "203.0.113.7" 1700000000000 hello ∅).1.1
            ≠ Binary bytes) by (intros bytes; vm_compute; discriminate).
  destruct (C4_speech_failure_status unauthorized "203.0.113.7" 1700000000000 hello ∅
              Hfail) as (_ & _ & _ & _ & _ & H).
  refine (H _ (JS.lit "hello")
            {| JS.name := JS.lit "Error";
               JS.message := JS.lit "401 Incorrect API key provided";
               JS.status := Some 401 |} eq_refl _ _ eq_refl);
    by vm_compute.
Defined.

(** *** Over-length text *)

(** C6, counterexample. A text of 4001 spaces has length 4001 and passes
    the gate, but the emptiness check comes first and trims it: the
    answer is 400 "No text provided", not "Text too long". *)
Lemma C6_counterexample :
  let r := (speech threeBytes "203.0.113.7" 1700000000000 blanks ∅).1.1 in
  (∃ s, text blanks = JS.Str s ∧ 4000 < Z.of_nat (length s))
  ∧ (checkRateLimit "203.0.113.7" 1700000000000 ∅).1 = true
  ∧ r = noTextProvided
  ∧ r ≠ textTooLong.
Proof.
  split; [eexists; split; [reflexivity|vm_compute; reflexivity]|].
  split; [vm_compute; reflexivity|].
  assert (E : (speech threeBytes "203.0.113.7" 1700000000000 blanks ∅).1.1 = noTextProvided)
    by (vm_compute; reflexivity).
  simpl. rewrite E. split; [done|]. vm_compute. discriminate.
Qed.

(** C6, amended. A request whose text is a string of more than 4000
    code units and which passes the gate is answered 400 without any
    provider call: with "Text too long. Maximum length is 4000
    characters." when the text is not blank, with "No text provided"
    when it consists of white space only. *)
Theorem C6_over_length_text (openai : synthesizer) (ip : string) (now : Z)
    (s : JS.str) (v : JS.value) (m : limiter)
    (Hlen : 4000 < Z.of_nat (length s))
    (Hgate : (checkRateLimit ip now m).1 = true) :
  let '(r, _, calls) := speech openai ip now {| text := JS.Str s; voice := v |} m in
  status r = 400
  ∧ calls = []
  ∧ (JS.trim s ≠ [] → r = textTooLong)
  ∧ (JS.trim s = [] → r = noTextProvided).
Proof.
  unfold speech. destruct (checkRateLimit ip now m) as [ok m1].
  simpl in Hgate. subst ok. simpl.
  assert (Hne : s ≠ []) by (intros ->; simpl in Hlen; lia).
  rewrite (bool_decide_eq_false_2 _ Hne). simpl.
  case_bool_decide as Ht; [done|].
  destruct (Z.ltb_spec 4000 (Z.of_nat (length s))); [done|lia].
Qed.

(** *** The audio response *)

Lemma parseLength_toString n : parseLength (JS.toString n) = Some n.
Proof.
  unfold parseLength, JS.toString.
  rewrite NilZero.usu.
  - simpl. f_equal. apply DecimalN.Unsigned.of_to.
  - destruct n as [|p]; [discriminate|]. apply DecimalPos.Unsigned.to_uint_nonnil.
Qed.

(** C7. Whenever POST /api/speech sends a binary body, the status is
    200, Content-Type is audio/mpeg and Content-Length is the decimal
    numeral of the number of bytes of that body. *)
Theorem C7_content_length (openai : synthesizer) (ip : string) (now : Z)
    (b : speechBody) (m : limiter) (bytes : list byte)
    (Hok : payload (speech openai ip now b m).1.1 = Binary bytes) :
  let r := (speech openai ip now b m).1.1 in
  status r = 200
  ∧ header "Content-Type" r = Some "audio/mpeg"%string
  ∧ header "Content-Length" r = Some (JS.toString (N.of_nat (length bytes)))
  ∧ (parseLength <$> header "Content-Length" r) = Some (Some (N.of_nat (length bytes))).
Proof.
  revert Hok. unfold speech.
  destruct (checkRateLimit ip now m) as [ok m1]. destruct ok; simpl; [|discriminate].
  destruct (JS.truthy (text b)); simpl; [|discriminate].
  destruct (text b); simpl; try discriminate.
  case_bool_decide; simpl; [discriminate|].
  destruct (4000 <? _); simpl; [discriminate|].
  destruct (openai _) as [bs|e]; [|discriminate].
  intros [= ->]. cbn [fst].
  assert (Hcl : header "Content-Length" (sendAudio bytes)
          = Some (JS.toString (N.of_nat (length bytes)))) by reflexivity.
  split; [reflexivity|]. split; [reflexivity|]. split; [exact Hcl|].
  change (parseLength <$> header "Content-Length" (sendAudio bytes)
          = Some (Some (N.of_nat (length bytes)))).
  rewrite Hcl. simpl. by rewrite parseLength_toString.
Qed.


(** *** The voice *)

Lemma speech_default_voice openai ip now b m :
  voice b = JS.Undefined →
  Forall (λ sc, s_voice sc = JS.Str (JS.lit "alloy")) (speech openai ip now b m).2.
Proof.
  intros Hv. unfold speech.
  destruct (checkRateLimit ip now m) as [ok m1]. destruct ok; simpl; [|constructor].
  destruct (JS.truthy (text b)); simpl; [|constructor].
  destruct (text b); simpl; try constructor.
  case_bool_decide; simpl; [constructor|].
  destruct (4000 <? _); simpl; [constructor|].
  rewrite Hv. destruct (openai _); simpl; by repeat constructor.
Qed.

(** *** The relay's error messages and the helpers' time-out messages *)





(** *** Instances *)

(** C1 at two speech requests of one client 500 ms apart: the second is
    turned away and the limiter keeps the time of the first. *)
Lemma C1_rate_gate_witness :
  (serve secondPost (run [firstPost] ∅).2).1 = tooManyRequests
  ∧ (serve secondPost (run [firstPost] ∅).2).2 = (run [firstPost] ∅).2.
Proof.
  destruct (C1_rate_gate [firstPost] secondPost secondPost eq_refl
              ltac:(by vm_compute)) as (Hiff & _ & _ & Hrej).
  assert (H : (serve secondPost (run [firstPost] ∅).2).1 = tooManyRequests).
  { apply Hiff. exists 1700000000000. split; by vm_compute. }
  split; [exact H|exact (proj1 (Hrej H))].
Defined.

(** C6 at a text of 4001 letters. *)
Lemma C6_over_length_text_witness :
  let '(r, _, calls) :=
    speech threeBytes "203.0.113.7" 1700000000000
      {| text := JS.Str longText; voice := JS.Undefined |} ∅ in
  status r = 400
  ∧ calls = []
  ∧ (JS.trim longText ≠ [] → r = textTooLong)
  ∧ (JS.trim longText = [] → r = noTextProvided).
Proof.
  apply (C6_over_length_text threeBytes "203.0.113.7" 1700000000000 longText
           JS.Undefined ∅); by vm_compute.
Defined.

(** C7 at a provider answer of three bytes. *)
Lemma C7_content_length_witness :
  let r := (speech threeBytes "203.0.113.7" 1700000000000 hello ∅).1.1 in
  status r = 200
  ∧ header "Content-Type" r = Some "audio/mpeg"%string
  ∧ header "Content-Length" r = Some "3"%string
  ∧ (parseLength <$> header "Content-Length" r) = Some (Some 3%N).
Proof.
  apply (C7_content_length threeBytes "203.0.113.7" 1700000000000 hello ∅
           [x49; x44; x33]%byte).
  by vm_compute.
Defined.

End ServerFacts.

(** ** Properties of the client gateway and of the helpers *)

Module GatewayFacts.
Import Net Outcome Scenario.

Lemma healthCheck_down net :
  down (net Health) = true →
  Gateway.healthCheck net = (Throws (JS.mkError Gateway.connectionFailed), [healthFetch]).
Proof.
  unfold down, Gateway.healthCheck, catch, mbind, io_bind, fetch, throw.
  destruct (net Health) as [[l|] [r|e]]; simpl; try discriminate; [|done].
  by intros ->.
Qed.

Lemma healthCheck_up net :
  up (net Health) = true → Gateway.healthCheck net = (Value (), [healthFetch]).
Proof.
  unfold up, Gateway.healthCheck, catch, mbind, io_bind, fetch, throw.
  destruct (net Health) as [[l|] [r|e]]; simpl; try discriminate.
  by intros ->.
Qed.

Lemma healthCheck_cases net :
  Gateway.healthCheck net = (Throws (JS.mkError Gateway.connectionFailed), [healthFetch])
  ∨ Gateway.healthCheck net = (Value (), [healthFetch])
  ∨ Gateway.healthCheck net = (Pending, [healthFetch]).
Proof.
  unfold Gateway.healthCheck, catch, mbind, io_bind, fetch, throw.
  destruct (net Health) as [[l|] [r|e]]; simpl; auto.
  destruct (ok r); simpl; auto.
Qed.

Lemma connectionFailed_not_fetch :
  bool_decide (JS.message (JS.mkError Gateway.connectionFailed) = JS.lit "Failed to fetch")
  = false.
Proof. by vm_compute. Qed.

Lemma rethrow_normalized {A} e net :
  @Gateway.rethrow A e net = (Throws (normalized e), []).
Proof. unfold Gateway.rethrow, normalized. by case_bool_decide. Qed.

Lemma transcribeAudio_down audio net :
  down (net Health) = true →
  Gateway.transcribeAudio audio net
  = (Throws (JS.mkError Gateway.connectionFailed), [healthFetch]).
Proof.
  intros H. unfold Gateway.transcribeAudio, catch, mbind at 1, io_bind at 1.
  rewrite (healthCheck_down net H). rewrite rethrow_normalized.
  unfold normalized. by rewrite connectionFailed_not_fetch.
Qed.

Lemma generateSpeech_down text net :
  down (net Health) = true →
  Gateway.generateSpeech text net
  = (Throws (JS.mkError Gateway.connectionFailed), [healthFetch]).
Proof.
  intros H. unfold Gateway.generateSpeech, catch, mbind at 1, io_bind at 1.
  rewrite (healthCheck_down net H). rewrite rethrow_normalized.
  unfold normalized. by rewrite connectionFailed_not_fetch.
Qed.

Lemma transcribeAudio_rejected audio net l e :
  up (net Health) = true →
  net (Transcribe audio (JS.lit "recording.webm"))
    = {| latency := Some l; answer := Rejected e |} →
  Gateway.transcribeAudio audio net
  = (Throws (normalized e), [healthFetch; transcribeFetch audio]).
Proof.
  intros H Hm. unfold Gateway.transcribeAudio, catch, mbind, io_bind.
  rewrite (healthCheck_up net H). unfold fetch. rewrite Hm. simpl.
  by rewrite rethrow_normalized.
Qed.

Lemma generateSpeech_rejected text net l e :
  up (net Health) = true →
  net (Speech {| Server.text := JS.Str text; Server.voice := JS.Undefined |})
    = {| latency := Some l; answer := Rejected e |} →
  Gateway.generateSpeech text net
  = (Throws (normalized e), [healthFetch; speechFetch text]).
Proof.
  intros H Hm. unfold Gateway.generateSpeech, catch, mbind, io_bind.
  rewrite (healthCheck_up net H). unfold fetch. rewrite Hm. simpl.
  by rewrite rethrow_normalized.
Qed.


Lemma generateSpeech_trace text net :
  (Gateway.generateSpeech text net).2 = [healthFetch]
  ∨ (Gateway.generateSpeech text net).2 = [healthFetch; speechFetch text].
Proof.
  unfold Gateway.generateSpeech, catch, mbind, io_bind.
  destruct (healthCheck_cases net) as [-> | [-> | ->]].
  - rewrite rethrow_normalized. auto.
  - right. unfold Gateway.rethrow, fetch, jsonOf, throw, mret, io_ret.
    repeat (case_match; simplify_eq/=); done.
  - auto.
Qed.


(** *** Time-outs *)












(** *** Connectivity *)

(** C5, counterexample. The health request is answered; the main
    request then fails in the network layer with the message "Load
    failed".  The gateway rethrows that error as it is. *)
Lemma C5_counterexample :
  Gateway.transcribeAudio sample (dropsMain (JS.lit "Load failed"))
  = (Throws (JS.TypeError (JS.lit "Load failed")), [healthFetch; transcribeFetch sample])
  ∧ JS.message (JS.TypeError (JS.lit "Load failed")) ≠ Gateway.connectionFailed.
Proof. split; [vm_compute; reflexivity|vm_compute; discriminate]. Qed.

(** C5, amended. Both gateway operations first issue the health
    request.  When it is rejected or answered with a non-ok status they
    throw "Server connection failed. Please ensure the server is
    running." and issue no other request.  When it is answered ok and
    the main request is rejected with an error [e], they throw the same
    connection error if the message of [e] is exactly "Failed to fetch",
    and [e] itself otherwise. *)
Theorem C5_gateway_connectivity (net : network) (audio : list byte) (text : JS.str) :
  (down (net Health) = true →
     Gateway.transcribeAudio audio net
     = (Throws (JS.mkError Gateway.connectionFailed),
        [{| target := Health; abortAfter := None |}])
     ∧ Gateway.generateSpeech text net
       = (Throws (JS.mkError Gateway.connectionFailed),
          [{| target := Health; abortAfter := None |}]))
  ∧ (up (net Health) = true →
     (∀ l e,
        net (Transcribe audio (JS.lit "recording.webm"))
          = {| latency := Some l; answer := Rejected e |} →
        Gateway.transcribeAudio audio net
        = (Throws (if bool_decide (JS.message e = JS.lit "Failed to fetch")
                   then JS.mkError Gateway.connectionFailed else e),
           [healthFetch; transcribeFetch audio]))
     ∧ (∀ l e,
        net (Speech {| Server.text := JS.Str text; Server.voice := JS.Undefined |})
          = {| latency := Some l; answer := Rejected e |} →
        Gateway.generateSpeech text net
        = (Throws (if bool_decide (JS.message e = JS.lit "Failed to fetch")
                   then JS.mkError Gateway.connectionFailed else e),
           [healthFetch; speechFetch text]))).
Proof.
  split.
  - intros H. split; [by apply transcribeAudio_down|by apply generateSpeech_down].
  - intros H. split; intros l e Hm.
    + by apply (transcribeAudio_rejected audio net l e).
    + by apply (generateSpeech_rejected text net l e).
Qed.

Lemma C5_gateway_connectivity_witness :
  Gateway.generateSpeech (JS.lit "hello") noRelay
  = (Throws (JS.mkError Gateway.connectionFailed),
     [{| target := Health; abortAfter := None |}])
  ∧ Gateway.transcribeAudio sample (dropsMain (JS.lit "Failed to fetch"))
    = (Throws (JS.mkError Gateway.connectionFailed), [healthFetch; transcribeFetch sample]).
Proof.
  split.
  - exact (proj2 (proj1 (C5_gateway_connectivity noRelay sample (JS.lit "hello")) eq_refl)).
  - exact (proj1 (proj2 (C5_gateway_connectivity (dropsMain (JS.lit "Failed to fetch"))
                           sample (JS.lit "hello")) eq_refl)
             20 (JS.TypeError (JS.lit "Failed to fetch")) eq_refl).
Defined.

End GatewayFacts.

(** ** Properties of the controller and of the page *)

Module ControllerFacts.
Import Net Outcome Scenario VoiceControls App.

(** *** Stopping a recording *)

Lemma stopRecording_idle i :
  (mediaRecorderRef i = None
   ∨ ∃ r, mediaRecorderRef i = Some r ∧ state r = Inactive) →
  stopRecording i = inr i.
Proof.
  unfold stopRecording. intros [-> | (r & -> & ->)]; done.
Qed.

Lemma stopRecording_active i r :
  mediaRecorderRef i = Some r → state r ≠ Inactive →
  stopRecording i
  = inr (setMediaRecorder
           (Some {| state := Inactive; stream := (λ _, Ended) <$> stream r |}) i).
Proof.
  unfold stopRecording, recorderStop, stopTracks. intros -> Hs.
  destruct (state r); done.
Qed.

Lemma stopRecording_total i : ∃ i', stopRecording i = inr i'.
Proof.
  destruct (mediaRecorderRef i) as [r|] eqn:E.
  - destruct (decide (state r = Inactive)) as [Hs|Hs].
    + exists i. apply stopRecording_idle. eauto.
    + eexists. by apply stopRecording_active.
  - exists i. apply stopRecording_idle. auto.
Qed.

Lemma all_ended (tracks : list trackState) :
  Forall (λ t, t = Ended) ((λ _, Ended) <$> tracks).
Proof. induction tracks; by constructor. Qed.

(** C8. While a recording is in progress (the recorder is not
    inactive), [stopRecording] stops the recorder and every track of its
    stream, whether it is reached from the button or from the countdown
    reaching its last second.  It never throws: with no recorder or an
    inactive one it changes nothing, so a second call after a stop is a
    no-op. *)
Theorem C8_stop_releases (i : instance) (r : mediaRecorder)
    (Hrec : mediaRecorderRef i = Some r) (Hactive : state r ≠ Inactive) :
  ∃ i' r',
    stopRecording i = inr i'
    ∧ mediaRecorderRef i' = Some r'
    ∧ state r' = Inactive
    ∧ length (stream r') = length (stream r)
    ∧ Forall (λ t, t = Ended) (stream r')
    ∧ (∀ now mic st, isEnabled st = true → isRecording i = true →
         handleSpeechToText now mic i st = inr (i', st))
    ∧ (timeLeft i ≤ 1 → tick i = inr (setTimeLeft 0 i'))
    ∧ stopRecording i' = inr i'
    ∧ (∀ j, mediaRecorderRef j = None
            ∨ (∃ q, mediaRecorderRef j = Some q ∧ state q = Inactive) →
            stopRecording j = inr j)
    ∧ (∀ j, ∃ j', stopRecording j = inr j' ∧ stopRecording j' = inr j').
Proof.
  pose proof (stopRecording_active i r Hrec Hactive) as Hstop.
  eexists _, _. split; [exact Hstop|].
  split; [reflexivity|]. split; [reflexivity|].
  split; [simpl; by rewrite length_fmap|].
  split; [apply all_ended|].
  split.
  { intros now mic st Hen Hr. unfold handleSpeechToText.
    by rewrite Hen, Hr, Hstop. }
  split.
  { intros Ht. unfold tick. destruct (Z.leb_spec (timeLeft i) 1); [|lia].
    by rewrite Hstop. }
  split; [apply stopRecording_idle; right; eauto|].
  split; [apply stopRecording_idle|].
  intros j. destruct (mediaRecorderRef j) as [q|] eqn:E.
  - destruct (decide (state q = Inactive)) as [Hs|Hs].
    + exists j. split; apply stopRecording_idle; eauto.
    + eexists. split; [by apply stopRecording_active|].
      apply stopRecording_idle. right. eauto.
  - exists j. split; apply stopRecording_idle; auto.
Qed.

Lemma C8_stop_releases_witness :
  ∃ i' r',
    stopRecording recording = inr i'
    ∧ mediaRecorderRef i' = Some r'
    ∧ state r' = Inactive
    ∧ stream r' = [Ended; Ended]
    ∧ tick recording = inr (setTimeLeft 0 i')
    ∧ stopRecording i' = inr i'.
Proof.
  destruct (C8_stop_releases recording {| state := Recording; stream := [Live; Live] |}
              eq_refl ltac:(discriminate))
    as (i' & r' & H1 & H2 & H3 & _ & _ & _ & H7 & H8 & _).
  exists i', r'. injection H1 as <-. injection H2 as <-.
  split; [reflexivity|]. split; [reflexivity|]. split; [reflexivity|].
  split; [reflexivity|]. split; [|exact H8].
  apply H7. by vm_compute.
Defined.


(** *** The target text *)

Lemma setIsRecording_targetRef v i : targetRef (setIsRecording v i) = targetRef i.
Proof. unfold setIsRecording. by destruct (eqb _ _). Qed.

Lemma setIsRecording_lastApiCallRef v i :
  lastApiCallRef (setIsRecording v i) = lastApiCallRef i.
Proof. unfold setIsRecording. by destruct (eqb _ _). Qed.

Lemma writeTextArea_lastApiCallRef v i :
  lastApiCallRef (writeTextArea v i) = lastApiCallRef i.
Proof. unfold writeTextArea. by destruct (targetRef i) as [[]|]. Qed.

Lemma checkRateLimit_pass now i :
  RATE_LIMIT_DELAY ≤ now - lastApiCallRef i →
  checkRateLimit now i = (true, setLastApiCall now i).
Proof.
  unfold checkRateLimit. intros H.
  destruct (Z.ltb_spec (now - lastApiCallRef i) RATE_LIMIT_DELAY); [lia|done].
Qed.

Lemma checkRateLimit_block now i :
  now - lastApiCallRef i < RATE_LIMIT_DELAY →
  checkRateLimit now i = (false, setError (Some pleaseWait) i).
Proof.
  unfold checkRateLimit. intros H.
  destruct (Z.ltb_spec (now - lastApiCallRef i) RATE_LIMIT_DELAY); [done|lia].
Qed.

Lemma ondataavailable_targetRef d i : targetRef (ondataavailable d i) = targetRef i.
Proof. unfold ondataavailable. by destruct (_ <? _)%nat. Qed.

Lemma chunks_targetRef chunks i :
  targetRef (foldl (λ i d, ondataavailable d i) i chunks) = targetRef i.
Proof.
  revert i. induction chunks as [|d chunks IH]; intros i; [done|].
  simpl. by rewrite IH, ondataavailable_targetRef.
Qed.

Lemma stopRecording_targetRef i j : stopRecording i = inr j → targetRef j = targetRef i.
Proof.
  unfold stopRecording, recorderStop.
  destruct (mediaRecorderRef i) as [r|]; [|by intros [= <-]].
  destruct (state r); intros [= <-]; done.
Qed.

(** A start that is turned away by the limiter keeps the text. *)
Lemma startRecording_blocked now mic i st :
  now - lastApiCallRef i < RATE_LIMIT_DELAY →
  targetRef (startRecording now mic i st).1 = targetRef i.
Proof.
  intros H. unfold startRecording. by rewrite (checkRateLimit_block _ _ H).
Qed.

(** C10. When the target is a textarea and the start passes the
    limiter, [startRecording] leaves the textarea empty whatever the
    browser answers to the microphone request.  The text stays empty
    through the chunks, the stop and a transcription that fails. *)
Theorem C10_start_clears_textarea (now : Z) (mic : micAnswer) (i : instance)
    (st : store) (v : JS.str)
    (Htarget : targetRef i = Some (TextArea v))
    (Hgate : RATE_LIMIT_DELAY ≤ now - lastApiCallRef i) :
  let i' := (startRecording now mic i st).1 in
  targetRef i' = Some (TextArea [])
  ∧ ∀ (chunks : list (list byte)) (net : network) (st' : store) (j : instance)
      (e : JS.error),
      stopRecording (foldl (λ i d, ondataavailable d i) i' chunks) = inr j →
      (Gateway.transcribeAudio (concat (audioChunks j)) net).1 = Throws e →
      targetRef (onstop j st' net).1.1 = Some (TextArea []).
Proof.
  intros i'.
  assert (Hclear : targetRef i' = Some (TextArea [])).
  { unfold i', startRecording. rewrite (checkRateLimit_pass _ _ Hgate). simpl.
    unfold writeTextArea. simpl. rewrite Htarget.
    destruct mic as [tracks|e]; simpl; by rewrite setIsRecording_targetRef. }
  split; [exact Hclear|].
  intros chunks net st' j e Hstop Hfail.
  apply stopRecording_targetRef in Hstop. rewrite chunks_targetRef, Hclear in Hstop.
  unfold onstop. simpl.
  destruct (Gateway.transcribeAudio _ net) as [[text|e'|] t]; simpl in Hfail; try done.
  simpl. by rewrite setIsRecording_targetRef.
Qed.

Lemma C10_start_clears_textarea_witness :
  targetRef drafted = Some (TextArea (JS.lit "draft"))
  ∧ targetRef (startRecording (VoiceControls.now deniedClick) (mic deniedClick)
                 drafted enabled).1
    = Some (TextArea []).
Proof.
  split; [reflexivity|].
  refine (proj1 (C10_start_clears_textarea (VoiceControls.now deniedClick)
                   (mic deniedClick) drafted enabled (JS.lit "draft") eq_refl _)).
  by vm_compute.
Defined.

(** *** One limiter per mounted component *)





(** *** The voice of a synthesis request *)

Lemma handleTextToSpeech_trace now play i st net :
  (handleTextToSpeech now play i st net).2 = []
  ∨ ∃ text, (handleTextToSpeech now play i st net).2 = (Gateway.generateSpeech text net).2.
Proof.
  unfold handleTextToSpeech.
  destruct (audioRef i); [|auto].
  destruct (isEnabled st); simpl; [|auto].
  destruct (checkRateLimit now i) as [ok i1]. destruct ok; simpl; [|auto].
  case_bool_decide; [auto|]. right.
  match goal with |- context [Gateway.generateSpeech ?x net] => exists x end.
  destruct (Gateway.generateSpeech _ net) as [[audioData|e|] t]; [destruct play| |];
    reflexivity.
Qed.

Lemma clickInput_trace env p p' t : clickInput env p = inr (p', t) → t = [] ∨
  ∃ text, t = (Gateway.generateSpeech text (net env)).2.
Proof.
  unfold clickInput, onClick.
  destruct (isEnabled (appStore p)); simpl; [|by intros [= _ <-]; auto].
  destruct (isProcessing (input p)); [by intros [= _ <-]; auto|].
  destruct (type (input p)).
  - destruct (handleSpeechToText _ _ _ _) as [e|[i st]]; [done|].
    intros [= _ <-]. auto.
  - pose proof (handleTextToSpeech_trace (VoiceControls.now env) (play env) (input p)
                  (appStore p) (net env)) as H.
    destruct (handleTextToSpeech _ _ _ _ _) as [[i st] t']. intros [= _ <-]. exact H.
Qed.

Lemma clickOutput_trace env p p' t : clickOutput env p = inr (p', t) → t = [] ∨
  ∃ text, t = (Gateway.generateSpeech text (net env)).2.
Proof.
  unfold clickOutput, onClick.
  destruct (isEnabled (appStore p)); simpl; [|by intros [= _ <-]; auto].
  destruct (isProcessing (output p)); [by intros [= _ <-]; auto|].
  destruct (type (output p)).
  - destruct (handleSpeechToText _ _ _ _) as [e|[i st]]; [done|].
    intros [= _ <-]. auto.
  - pose proof (handleTextToSpeech_trace (VoiceControls.now env) (play env) (output p)
                  (appStore p) (net env)) as H.
    destruct (handleTextToSpeech _ _ _ _ _) as [[i st] t']. intros [= _ <-]. exact H.
Qed.

Lemma generateSpeech_body text net c body :
  c ∈ (Gateway.generateSpeech text net).2 → target c = Speech body →
  body = {| Server.text := JS.Str text; Server.voice := JS.Undefined |}.
Proof.
  intros Hin Hc.
  destruct (GatewayFacts.generateSpeech_trace text net) as [E | E]; rewrite E in Hin.
  - apply elem_of_cons in Hin as [-> | Hin]; [discriminate|].
    by apply elem_of_nil in Hin.
  - apply elem_of_cons in Hin as [-> | Hin]; [discriminate|].
    apply elem_of_cons in Hin as [-> | Hin]; [by injection Hc as <-|].
    by apply elem_of_nil in Hin.
Qed.

(** C9. A speech request issued by the gateway's [generateSpeech]
    carries the text and no voice, and the relay serving such a request
    calls the provider, if at all, with the voice "alloy".  Every speech
    request a click on the page issues is one of these. *)
Theorem C9_default_voice (text : JS.str) (net : network) (c : call)
    (body : Server.speechBody)
    (Hin : c ∈ (Gateway.generateSpeech text net).2)
    (Hc : target c = Speech body) :
  body = {| Server.text := JS.Str text; Server.voice := JS.Undefined |}
  ∧ (∀ openai ip now m,
       Forall (λ sc, Server.s_voice sc = JS.Str (JS.lit "alloy"))
         (Server.speech openai ip now body m).2)
  ∧ (∀ env p p' t c' body',
       clickInput env p = inr (p', t) ∨ clickOutput env p = inr (p', t) →
       c' ∈ t → target c' = Speech body' →
       Server.voice body' = JS.Undefined).
Proof.
  pose proof (generateSpeech_body text net c body Hin Hc) as ->.
  split; [done|]. split.
  - intros openai ip now m. by apply ServerFacts.speech_default_voice.
  - intros env p p' t c' body' Hclick Hin' Hc'.
    assert (Ht : t = [] ∨ ∃ text', t = (Gateway.generateSpeech text' (VoiceControls.net env)).2).
    { destruct Hclick as [H|H]; [by eapply clickInput_trace|by eapply clickOutput_trace]. }
    destruct Ht as [-> | [text' ->]]; [by apply elem_of_nil in Hin'|].
    by rewrite (generateSpeech_body text' _ c' body' Hin' Hc').
Qed.

Lemma C9_default_voice_witness :
  (Gateway.generateSpeech (JS.lit "hello") (relayAfter 800)).2
  = [healthFetch; speechFetch (JS.lit "hello")]
  ∧ (Server.speech threeBytes "203.0.113.7" 1700000000000 hello ∅).2
    = [{| Server.s_model := JS.lit "tts-1";
          Server.s_voice := JS.Str (JS.lit "alloy");
          Server.s_input := JS.lit "hello" |}]
  ∧ Forall (λ sc, Server.s_voice sc = JS.Str (JS.lit "alloy"))
      (Server.speech threeBytes "203.0.113.7" 1700000000000 hello ∅).2.
Proof.
  split; [by vm_compute|]. split; [by vm_compute|].
  exact (proj1 (proj2 (C9_default_voice (JS.lit "hello") (relayAfter 800)
                  (speechFetch (JS.lit "hello")) hello
                  (list_elem_of_further _ _ _ (list_elem_of_here _ _)) eq_refl))
           threeBytes "203.0.113.7"%string 1700000000000 ∅).
Defined.

End ControllerFacts.

(** ** Further properties of the relay server *)

Module RelayProperties.
Import Server Relay Scenario Fixtures.

Lemma serve_limiter_cases ev m :
  (serve ev m).2 = m ∨ (serve ev m).2 = <[ev_ip ev := ev_now ev]> m.
Proof.
  destruct (isPost (ev_request ev)) eqn:Hp.
  - pose proof (ServerFacts.serve_gate ev m Hp) as H.
    destruct (checkRateLimit _ _ _).1; [right|left]; apply H.
  - left. by rewrite (ServerFacts.serve_health ev m Hp).
Qed.

Lemma step_posts acc acc' ev :
  acc.2 = acc'.2 →
  filter (λ er : event * response, isPost (ev_request er.1) = true) acc.1 = acc'.1 →
  isPost (ev_request ev) = true →
  (step acc ev).2 = (step acc' ev).2
  ∧ filter (λ er : event * response, isPost (ev_request er.1) = true) (step acc ev).1
    = (step acc' ev).1.
Proof.
  intros Hm Hl Hp. unfold step. rewrite <- Hm.
  destruct (serve ev acc.2) as [r m']. simpl. split; [done|].
  rewrite filter_cons_True; [|done]. by rewrite Hl.
Qed.

Lemma step_health acc ev :
  isPost (ev_request ev) = false →
  (step acc ev).2 = acc.2
  ∧ filter (λ er : event * response, isPost (ev_request er.1) = true) (step acc ev).1
    = filter (λ er : event * response, isPost (ev_request er.1) = true) acc.1.
Proof.
  intros Hp. unfold step. rewrite (ServerFacts.serve_health ev acc.2 Hp). simpl.
  split; [done|]. rewrite filter_cons_False; [done|]. simpl. by rewrite Hp.
Qed.

Lemma foldl_posts evs acc acc' :
  acc.2 = acc'.2 →
  filter (λ er : event * response, isPost (ev_request er.1) = true) acc.1 = acc'.1 →
  (foldl step acc evs).2
  = (foldl step acc' (filter (λ ev, isPost (ev_request ev) = true) evs)).2
  ∧ filter (λ er : event * response, isPost (ev_request er.1) = true)
      (foldl step acc evs).1
    = (foldl step acc' (filter (λ ev, isPost (ev_request ev) = true) evs)).1.
Proof.
  revert acc acc'. induction evs as [|ev evs IH]; intros acc acc' Hm Hl; [done|].
  destruct (isPost (ev_request ev)) eqn:Hp.
  - rewrite filter_cons_True; [|done]. simpl.
    destruct (step_posts acc acc' ev Hm Hl Hp) as [Hm' Hl']. by apply IH.
  - rewrite filter_cons_False; [|by rewrite Hp]. simpl.
    destruct (step_health acc ev Hp) as [Hm' Hl']. apply IH; congruence.
Qed.

Lemma foldl_health_answers evs acc :
  Forall (λ er : event * response, isPost (ev_request er.1) = false → er.2 = health) acc.1 →
  Forall (λ er : event * response, isPost (ev_request er.1) = false → er.2 = health)
    (foldl step acc evs).1.
Proof.
  revert acc. induction evs as [|ev evs IH]; intros acc Hacc; [done|].
  simpl. apply IH. unfold step.
  destruct (serve ev acc.2) as [r m'] eqn:E. simpl. constructor; [|done].
  simpl. intros Hp. rewrite (ServerFacts.serve_health ev acc.2 Hp) in E. congruence.
Qed.

(** Health requests are invisible to the gate: they are always answered
    200 {status: "ok"}, and the limiter and the answers to all other
    requests of a run are what they would be had the health requests
    never been made. *)
Theorem health_transparent (evs : list event) (m : limiter) :
  (run evs m).2 = (run (filter (λ ev, isPost (ev_request ev) = true) evs) m).2
  ∧ filter (λ er : event * response, isPost (ev_request er.1) = true) (run evs m).1
    = (run (filter (λ ev, isPost (ev_request ev) = true) evs) m).1
  ∧ Forall (λ er : event * response, isPost (ev_request er.1) = false → er.2 = health)
      (run evs m).1.
Proof.
  destruct (foldl_posts evs ([], m) ([], m) eq_refl eq_refl) as [H1 H2].
  split; [exact H1|]. split; [exact H2|].
  apply foldl_health_answers. constructor.
Qed.

(** The limiter is kept per key: serving a request of one IP changes
    neither the stored time nor the verdict of the gate for any other
    IP. *)
Theorem keys_independent (ev : event) (m : limiter) (ip : string) (now : Z)
    (Hother : ev_ip ev ≠ ip) :
  (serve ev m).2 !! ip = m !! ip
  ∧ (checkRateLimit ip now (serve ev m).2).1 = (checkRateLimit ip now m).1.
Proof.
  assert (H : (serve ev m).2 !! ip = m !! ip).
  { destruct (serve_limiter_cases ev m) as [-> | ->]; [done|].
    by rewrite lookup_insert_ne. }
  split; [exact H|]. unfold checkRateLimit, lastRequest. rewrite H.
  by destruct (_ <? _).
Qed.

Lemma keys_independent_witness :
  (serve otherPost (run [firstPost] ∅).2).2 !! "203.0.113.7"%string
  = (run [firstPost] ∅).2 !! "203.0.113.7"%string
  ∧ (checkRateLimit "203.0.113.7" 1700000000500 (serve otherPost (run [firstPost] ∅).2).2).1
    = (checkRateLimit "203.0.113.7" 1700000000500 (run [firstPost] ∅).2).1.
Proof.
  apply (keys_independent otherPost (run [firstPost] ∅).2 "203.0.113.7" 1700000000500).
  by vm_compute.
Defined.

Lemma foldl_limiter_grows evs acc :
  dom acc.2 ⊆ dom (foldl step acc evs).2
  ∧ (size (foldl step acc evs).2 ≤ size acc.2 + length evs)%nat.
Proof.
  revert acc. induction evs as [|ev evs IH]; intros acc; simpl; [split; [done|lia]|].
  destruct (IH (step acc ev)) as [Hd Hs].
  assert (Hstep : (step acc ev).2 = (serve ev acc.2).2).
  { unfold step. by destruct (serve ev acc.2). }
  rewrite Hstep in Hd, Hs.
  destruct (serve_limiter_cases ev acc.2) as [E | E]; rewrite E in Hd, Hs.
  - split; [done|lia].
  - split; [etrans; [apply dom_insert_subseteq|exact Hd]|].
    pose proof (map_size_insert (ev_ip ev) (ev_now ev) acc.2) as Hi.
    destruct (acc.2 !! ev_ip ev); simpl in Hi; lia.
Qed.

(** The limiter only grows: a run never removes the entry of a key, and
    it adds at most one entry per request served. *)
Theorem limiter_grows (evs : list event) (m : limiter) :
  dom m ⊆ dom (run evs m).2
  ∧ (size (run evs m).2 ≤ size m + length evs)%nat.
Proof. apply (foldl_limiter_grows evs ([], m)). Qed.


(** *** POST /api/transcribe *)

(** The relay calls the transcription provider at most once per request,
    and only for a request that passed the gate and carries a file; the
    call hands on the uploaded file as it is, with model whisper-1, JSON
    format, temperature 0 and language en. *)
Theorem transcribe_provider_call (openai : transcriber) (ip : string) (now : Z)
    (f : option file) (m : limiter) :
  (transcribe openai ip now f m).2
  = match f with
    | Some f' =>
        if (checkRateLimit ip now m).1
        then [{| t_file := f'; t_model := JS.lit "whisper-1";
                 t_response_format := JS.lit "json";
                 t_temperature := 0; t_language := JS.lit "en" |}]
        else []
    | None => []
    end.
Proof.
  unfold transcribe. destruct (checkRateLimit ip now m) as [ok m1].
  destruct ok, f as [f'|]; simpl; try done.
  destruct (openai _) as [[text|]|e]; try case_bool_decide; done.
Qed.

(** A request without a file that passes the gate is answered 400 "No
    audio file provided", and it still takes up the client's window. *)
Theorem transcribe_without_file (openai : transcriber) (ip : string) (now : Z)
    (m : limiter) (Hgate : (checkRateLimit ip now m).1 = true) :
  (transcribe openai ip now None m).1
  = (json 400 (JsonError (JS.lit "No audio file provided")), <[ip := now]> m)
  ∧ (checkRateLimit ip (now + 999) (transcribe openai ip now None m).1.2).1 = false.
Proof.
  unfold transcribe.
  destruct (ServerFacts.checkRateLimit_accept ip now m Hgate) as [_ Hm].
  destruct (checkRateLimit ip now m) as [ok m1]. simpl in *. subst. simpl.
  split; [done|]. unfold checkRateLimit.
  rewrite (ServerFacts.lastRequest_stored ip _ now (lookup_insert_eq _ _ _)).
  unfold RATE_LIMIT_WINDOW. by destruct (Z.ltb_spec (now + 999 - now) 1000); [|lia].
Qed.

Lemma transcribe_without_file_witness :
  (transcribe heard "203.0.113.7" 1700000000000 None ∅).1
  = (json 400 (JsonError (JS.lit "No audio file provided")),
     <["203.0.113.7"%string := 1700000000000]> ∅)
  ∧ (checkRateLimit "203.0.113.7" (1700000000000 + 999)
       (transcribe heard "203.0.113.7" 1700000000000 None ∅).1.2).1 = false.
Proof.
  apply (transcribe_without_file heard "203.0.113.7" 1700000000000 ∅).
  by vm_compute.
Defined.

(** A transcript sent to the client is never empty and is exactly what
    the provider returned for the uploaded file; it comes with status
    200 and only for a request that passed the gate. *)
Theorem transcribe_text_is_providers (openai : transcriber) (ip : string) (now : Z)
    (f : option file) (m : limiter) (text : JS.str)
    (Htext : payload (transcribe openai ip now f m).1.1 = JsonText text) :
  status (transcribe openai ip now f m).1.1 = 200
  ∧ text ≠ []
  ∧ (checkRateLimit ip now m).1 = true
  ∧ ∃ f', f = Some f'
      ∧ openai {| t_file := f'; t_model := JS.lit "whisper-1";
                  t_response_format := JS.lit "json";
                  t_temperature := 0; t_language := JS.lit "en" |}
        = Fulfilled (Some text).
Proof.
  revert Htext. unfold transcribe. destruct (checkRateLimit ip now m) as [ok m1].
  destruct ok; simpl; [|discriminate].
  destruct f as [f'|]; simpl; [|discriminate].
  destruct (openai _) as [[t|]|e] eqn:E; try case_bool_decide; simpl; try discriminate.
  intros [= ->]. eauto 10.
Qed.

Lemma transcribe_text_is_providers_witness :
  status (transcribe heard "203.0.113.7" 1700000000000 (Some upload) ∅).1.1 = 200
  ∧ JS.lit "hello" ≠ [].
Proof.
  assert (Hsent : payload (transcribe heard "203.0.113.7" 1700000000000
                             (Some upload) ∅).1.1 = JsonText (JS.lit "hello"))
    by (vm_compute; reflexivity).
  destruct (transcribe_text_is_providers heard "203.0.113.7" 1700000000000
              (Some upload) ∅ (JS.lit "hello") Hsent) as (H1 & H2 & _).
  exact (conj H1 H2).
Defined.

(** When the provider fails, the answer carries the provider's status
    (500 when it has none).  A message that mentions "socket hang up" or
    "timeout" is reported as a connection time-out whatever the status;
    otherwise, if it does not mention "File", status 400 is reported as
    an invalid audio format, 401 as an authentication error, and an
    error without status as the generic failure. *)
Theorem transcribe_failure_codes (openai : transcriber) (ip : string) (now : Z)
    (f : file) (m : limiter) (e : JS.error)
    (Hgate : (checkRateLimit ip now m).1 = true)
    (Hfail : openai {| t_file := f; t_model := JS.lit "whisper-1";
                       t_response_format := JS.lit "json";
                       t_temperature := 0; t_language := JS.lit "en" |} = Failed e) :
  let r := (transcribe openai ip now (Some f) m).1.1 in
  status r = match JS.status e with Some 0 | None => 500 | Some s => s end
  ∧ (JS.includes (JS.message e) (JS.lit "socket hang up")
       || JS.includes (JS.message e) (JS.lit "timeout") = true →
     payload r = JsonError (JS.lit "Connection timed out. StackBlitz has limited connection timeouts for large files. Try a shorter audio clip (under 10 seconds)."))
  ∧ (JS.includes (JS.message e) (JS.lit "socket hang up") = false →
     JS.includes (JS.message e) (JS.lit "timeout") = false →
     JS.includes (JS.message e) (JS.lit "File") = false →
     (JS.status e = Some 400 →
        r = json 400 (JsonError (JS.lit "Invalid audio format. Please ensure you're sending a supported audio format (MP3, WAV, etc.).")))
     ∧ (JS.status e = Some 401 →
        r = json 401 (JsonError (JS.lit "Authentication error. Please check your API key.")))
     ∧ (JS.status e = None →
        r = json 500 (JsonError (JS.lit "Failed to transcribe audio.")))).
Proof.
  unfold transcribe. destruct (checkRateLimit ip now m) as [ok m1].
  simpl in Hgate. subst ok. simpl. rewrite Hfail. simpl.
  unfold statusOr500, transcribeError.
  split; [destruct (JS.status e) as [[| |]|]; done|].
  split; [by intros ->|].
  intros -> -> ->. simpl.
  repeat split; intros ->; done.
Qed.

Lemma transcribe_failure_codes_witness :
  (transcribe refusesKey "203.0.113.7" 1700000000000 (Some upload) ∅).1.1
  = json 401 (JsonError (JS.lit "Authentication error. Please check your API key.")).
Proof.
  refine (proj1 (proj2 (proj2 (proj2
    (transcribe_failure_codes refusesKey "203.0.113.7" 1700000000000 upload ∅ badKey
       _ eq_refl)) _ _ _)) eq_refl); by vm_compute.
Defined.

(** *** POST /api/speech *)

(** The relay calls the synthesis provider at most once per request, and
    exactly when the request passed the gate and its text is a string
    that is not blank and has at most 4000 code units.  The call carries
    the text as it was sent (untrimmed), model tts-1, and the requested
    voice, or "alloy" when the request names none. *)
Theorem speech_provider_call (openai : synthesizer) (ip : string) (now : Z)
    (b : speechBody) (m : limiter) :
  let calls := (speech openai ip now b m).2 in
  (calls = []
   ∨ ∃ s, text b = JS.Str s
        ∧ calls = [{| s_model := JS.lit "tts-1";
                      s_voice := if JS.truthy (voice b) then voice b
                                 else JS.Str (JS.lit "alloy");
                      s_input := s |}])
  ∧ (calls ≠ [] ↔
     (checkRateLimit ip now m).1 = true
     ∧ ∃ s, text b = JS.Str s ∧ JS.trim s ≠ [] ∧ Z.of_nat (length s) ≤ 4000).
Proof.
  unfold speech. destruct (checkRateLimit ip now m) as [ok m1]. simpl.
  destruct ok; simpl; [|split; [by left|split; [done|by intros [? _]]]].
  destruct (text b) as [| |bb|n|s|] eqn:Et; simpl.
  1,2,6: split; [by left|split; [done|by intros [_ (? & ? & _)]]].
  1: destruct bb; simpl; (split; [by left|split; [done|by intros [_ (? & ? & _)]]]).
  1: destruct (n =? 0); simpl; (split; [by left|split; [done|by intros [_ (? & ? & _)]]]).
  destruct (bool_decide_reflect (s = [])) as [->|Hs]; simpl.
  { split; [by left|]. split; [done|]. intros [_ (s' & [= <-] & Ht & _)]. by destruct Ht. }
  destruct (bool_decide_reflect (JS.trim s = [])) as [Ht|Ht]; simpl.
  { split; [by left|]. split; [done|]. by intros [_ (s' & [= <-] & Ht' & _)]. }
  destruct (Z.ltb_spec 4000 (Z.of_nat (length s))); simpl.
  { split; [by left|]. split; [done|]. intros [_ (s' & [= <-] & _ & Hl)]. lia. }
  change (JS.or (voice b) (JS.Str (JS.lit "alloy")))
    with (if JS.truthy (voice b) then voice b else JS.Str (JS.lit "alloy")).
  destruct (openai _) as [bytes|e]; simpl.
  all: split; [right; by exists s|].
  all: split; [|done]; intros _; split; [done|]; exists s; repeat split; [done|lia].
Qed.

(** Audio sent to the client is exactly what the provider returned for
    the text of the request. *)
Theorem speech_audio_is_providers (openai : synthesizer) (ip : string) (now : Z)
    (b : speechBody) (m : limiter) (bytes : list byte)
    (Haudio : payload (speech openai ip now b m).1.1 = Binary bytes) :
  ∃ s, text b = JS.Str s
     ∧ openai {| s_model := JS.lit "tts-1";
                 s_voice := if JS.truthy (voice b) then voice b
                            else JS.Str (JS.lit "alloy");
                 s_input := s |}
       = Fulfilled bytes.
Proof.
  revert Haudio. unfold speech. destruct (checkRateLimit ip now m) as [ok m1].
  destruct ok; simpl; [|discriminate].
  destruct (JS.truthy (text b)); simpl; [|discriminate].
  destruct (text b) as [| |bb|n|s|]; simpl; try discriminate.
  case_bool_decide; simpl; [discriminate|].
  destruct (4000 <? _); simpl; [discriminate|].
  destruct (openai _) as [bs|e] eqn:E; simpl; [|discriminate].
  intros [= ->]. exists s. done.
Qed.

Lemma speech_audio_is_providers_witness :
  ∃ s, text nova = JS.Str s
     ∧ threeBytes {| s_model := JS.lit "tts-1";
                     s_voice := JS.Str (JS.lit "nova");
                     s_input := s |}
       = Fulfilled [x49; x44; x33]%byte.
Proof.
  apply (speech_audio_is_providers threeBytes "203.0.113.7" 1700000000000 nova ∅
           [x49; x44; x33]%byte).
  by vm_compute.
Defined.

(** A request that passes the gate with a missing, empty or blank text
    is answered 400 "No text provided"; one whose text is a true value
    that is not a string is answered 500 "Failed to generate speech.".
    Either way the provider is not called and the client's window is
    taken up. *)
Theorem speech_bad_text (openai : synthesizer) (ip : string) (now : Z)
    (b : speechBody) (m : limiter)
    (Hgate : (checkRateLimit ip now m).1 = true) :
  (JS.truthy (text b) = false ∨ (∃ s, text b = JS.Str s ∧ JS.trim s = []) →
     speech openai ip now b m = (noTextProvided, <[ip := now]> m, []))
  ∧ (JS.truthy (text b) = true → (∀ s, text b ≠ JS.Str s) →
     speech openai ip now b m
     = (json 500 (JsonError (JS.lit "Failed to generate speech.")), <[ip := now]> m, [])).
Proof.
  unfold speech.
  destruct (ServerFacts.checkRateLimit_accept ip now m Hgate) as [_ Hm].
  destruct (checkRateLimit ip now m) as [ok m1]. simpl in *. subst. simpl.
  split.
  - intros [Hf | (s & Hs & Ht)].
    + by rewrite Hf.
    + rewrite Hs. simpl. case_bool_decide; simpl; [done|].
      by rewrite bool_decide_eq_true_2.
  - intros Ht Hs. rewrite Ht. simpl.
    destruct (text b) as [| |bb|n|s|]; try done. by destruct (Hs s).
Qed.

Lemma speech_bad_text_witness :
  speech threeBytes "203.0.113.7" 1700000000000
    {| text := JS.Str (JS.lit "   "); voice := JS.Undefined |} ∅
  = (noTextProvided, <["203.0.113.7"%string := 1700000000000]> ∅, [])
  ∧ speech threeBytes "203.0.113.7" 1700000000000
      {| text := JS.Num 5; voice := JS.Undefined |} ∅
    = (json 500 (JsonError (JS.lit "Failed to generate speech.")),
       <["203.0.113.7"%string := 1700000000000]> ∅, []).
Proof.
  split.
  - apply (speech_bad_text threeBytes "203.0.113.7" 1700000000000
             {| text := JS.Str (JS.lit "   "); voice := JS.Undefined |} ∅);
      [by vm_compute|].
    right. exists (JS.lit "   "). split; [reflexivity|by vm_compute].
  - apply (speech_bad_text threeBytes "203.0.113.7" 1700000000000
             {| text := JS.Num 5; voice := JS.Undefined |} ∅);
      [by vm_compute|reflexivity|discriminate].
Defined.

End RelayProperties.

(** ** Further properties of the gateway and of the helpers *)

Module GatewayProperties.
Import Net Outcome Scenario Fixtures.

Lemma normalized_syntaxError : normalized syntaxError = syntaxError.
Proof. by vm_compute. Qed.

Lemma transcribeAudio_answered net audio l r :
  up (net Health) = true →
  net (Transcribe audio (JS.lit "recording.webm"))
    = {| latency := Some l; answer := Resolved r |} →
  Gateway.transcribeAudio audio net
  = (match json r with
     | None => Throws syntaxError
     | Some j =>
         if ok r then Value (j_text j)
         else
           let msg := orElse (j_error j) (JS.lit "Failed to transcribe audio") in
           Throws (JS.mkError (if bool_decide (msg = JS.lit "Failed to fetch")
                               then Gateway.connectionFailed else msg))
     end,
     [healthFetch; transcribeFetch audio]).
Proof.
  intros Hup Hmain. unfold Gateway.transcribeAudio, catch, mbind, io_bind.
  rewrite (GatewayFacts.healthCheck_up net Hup). unfold fetch. rewrite Hmain. simpl.
  unfold jsonOf, throw, mret, io_ret.
  destruct (ok r), (json r) as [j|]; simpl; try done.
  unfold Gateway.rethrow, throw. simpl. by case_bool_decide.
Qed.

Lemma generateSpeech_answered net text l r :
  up (net Health) = true →
  net (Speech {| Server.text := JS.Str text; Server.voice := JS.Undefined |})
    = {| latency := Some l; answer := Resolved r |} →
  Gateway.generateSpeech text net
  = (if ok r then Value (bytes r)
     else match json r with
          | None => Throws syntaxError
          | Some j =>
              let msg := orElse (j_error j) (JS.lit "Failed to generate speech") in
              Throws (JS.mkError (if bool_decide (msg = JS.lit "Failed to fetch")
                                  then Gateway.connectionFailed else msg))
          end,
     [healthFetch; speechFetch text]).
Proof.
  intros Hup Hmain. unfold Gateway.generateSpeech, catch, mbind, io_bind.
  rewrite (GatewayFacts.healthCheck_up net Hup). unfold fetch. rewrite Hmain. simpl.
  unfold jsonOf, throw, mret, io_ret.
  destruct (ok r), (json r) as [j|]; simpl; try done.
  unfold Gateway.rethrow, throw. simpl. by case_bool_decide.
Qed.

(** What [transcribeAudio] of the gateway makes of an answer to its main
    request, once the health request was answered ok: the [text] field
    of an ok JSON answer (possibly absent); for an answer that is not
    ok, an error with the [error] field of the body, or with "Failed to
    transcribe audio" when that field is absent or empty; the syntax
    error of [json()] when the body is not JSON.  An error field that
    reads "Failed to fetch" is reported as a failed connection. *)
Theorem gateway_transcribe_answer (net : network) (audio : list byte) (l : Z)
    (r : response)
    (Hup : up (net Health) = true)
    (Hmain : net (Transcribe audio (JS.lit "recording.webm"))
             = {| latency := Some l; answer := Resolved r |}) :
  Gateway.transcribeAudio audio net
  = (match json r with
     | None => Throws syntaxError
     | Some j =>
         if ok r then Value (j_text j)
         else
           let msg := orElse (j_error j) (JS.lit "Failed to transcribe audio") in
           Throws (JS.mkError (if bool_decide (msg = JS.lit "Failed to fetch")
                               then Gateway.connectionFailed else msg))
     end,
     [healthFetch; transcribeFetch audio]).
Proof.
  unfold Gateway.transcribeAudio, catch, mbind, io_bind.
  rewrite (GatewayFacts.healthCheck_up net Hup). unfold fetch. rewrite Hmain. simpl.
  unfold jsonOf, throw, mret, io_ret.
  destruct (ok r), (json r) as [j|]; simpl; try done.
  unfold Gateway.rethrow, throw. simpl. by case_bool_decide.
Qed.

Lemma gateway_transcribe_answer_witness :
  Gateway.transcribeAudio sample (failing None)
  = (Throws (JS.mkError (JS.lit "Failed to transcribe audio")),
     [healthFetch; transcribeFetch sample])
  ∧ Gateway.transcribeAudio sample forbiddenPage
    = (Throws syntaxError, [healthFetch; transcribeFetch sample]).
Proof.
  split.
  - exact (gateway_transcribe_answer (failing None) sample 20 _ eq_refl eq_refl).
  - exact (gateway_transcribe_answer forbiddenPage sample 20 _ eq_refl eq_refl).
Defined.

(** What [generateSpeech] of the gateway makes of an answer to its main
    request, once the health request was answered ok: the bytes of an ok
    answer, whatever they are; for an answer that is not ok, an error
    with the [error] field of the body, or with "Failed to generate
    speech" when that field is absent or empty; the syntax error of
    [json()] when that body is not JSON. *)
Theorem gateway_speech_answer (net : network) (text : JS.str) (l : Z) (r : response)
    (Hup : up (net Health) = true)
    (Hmain : net (Speech {| Server.text := JS.Str text; Server.voice := JS.Undefined |})
             = {| latency := Some l; answer := Resolved r |}) :
  Gateway.generateSpeech text net
  = (if ok r then Value (bytes r)
     else match json r with
          | None => Throws syntaxError
          | Some j =>
              let msg := orElse (j_error j) (JS.lit "Failed to generate speech") in
              Throws (JS.mkError (if bool_decide (msg = JS.lit "Failed to fetch")
                                  then Gateway.connectionFailed else msg))
          end,
     [healthFetch; speechFetch text]).
Proof.
  unfold Gateway.generateSpeech, catch, mbind, io_bind.
  rewrite (GatewayFacts.healthCheck_up net Hup). unfold fetch. rewrite Hmain. simpl.
  unfold jsonOf, throw, mret, io_ret.
  destruct (ok r), (json r) as [j|]; simpl; try done.
  unfold Gateway.rethrow, throw. simpl. by case_bool_decide.
Qed.

Lemma gateway_speech_answer_witness :
  Gateway.generateSpeech (JS.lit "hello") (relayAfter 800)
  = (Value [x49; x44; x33]%byte, [healthFetch; speechFetch (JS.lit "hello")])
  ∧ Gateway.generateSpeech (JS.lit "hello") (failing (Some (JS.lit "No text provided")))
    = (Throws (JS.mkError (JS.lit "No text provided")),
       [healthFetch; speechFetch (JS.lit "hello")]).
Proof.
  split.
  - exact (gateway_speech_answer (relayAfter 800) (JS.lit "hello") 800 _ eq_refl eq_refl).
  - exact (gateway_speech_answer (failing (Some (JS.lit "No text provided")))
             (JS.lit "hello") 20 _ eq_refl eq_refl).
Defined.

(** The gateway never gives up on its own: while the health request is
    unanswered both operations stay pending with only that request
    issued, and once it was answered ok they stay pending for as long as
    the main request is unanswered. *)
Theorem gateway_waits (net : network) (audio : list byte) (text : JS.str) :
  (latency (net Health) = None →
     Gateway.transcribeAudio audio net = (Pending, [healthFetch])
     ∧ Gateway.generateSpeech text net = (Pending, [healthFetch]))
  ∧ (up (net Health) = true →
     (latency (net (Transcribe audio (JS.lit "recording.webm"))) = None →
        Gateway.transcribeAudio audio net = (Pending, [healthFetch; transcribeFetch audio]))
     ∧ (latency (net (Speech {| Server.text := JS.Str text;
                                Server.voice := JS.Undefined |})) = None →
        Gateway.generateSpeech text net = (Pending, [healthFetch; speechFetch text]))).
Proof.
  split.
  - intros H.
    assert (Hh : Gateway.healthCheck net = (Pending, [healthFetch])).
    { unfold Gateway.healthCheck, catch, mbind, io_bind, fetch. by rewrite H. }
    unfold Gateway.transcribeAudio, Gateway.generateSpeech, catch, mbind, io_bind.
    by rewrite Hh.
  - intros Hup. split; intros H.
    + unfold Gateway.transcribeAudio, catch, mbind, io_bind.
      rewrite (GatewayFacts.healthCheck_up net Hup). unfold fetch. by rewrite H.
    + unfold Gateway.generateSpeech, catch, mbind, io_bind.
      rewrite (GatewayFacts.healthCheck_up net Hup). unfold fetch. by rewrite H.
Qed.

Lemma gateway_waits_witness :
  Gateway.transcribeAudio sample silent = (Pending, [healthFetch])
  ∧ Gateway.generateSpeech (JS.lit "hello") silent = (Pending, [healthFetch]).
Proof.
  exact (proj1 (gateway_waits silent sample (JS.lit "hello")) eq_refl).
Defined.

(** The helpers of audioUtils.js issue exactly one request each, the
    main request with the 30 s signal, and no health request, whatever
    the network does; [generateSpeech] sends the voice it was given, or
    "alloy" when none was given. *)
Theorem utils_single_request (net : network) (audio : list byte) (text : JS.str)
    (voice : option JS.str) :
  (AudioUtils.transcribeAudio audio net).2
  = [{| target := Transcribe audio (JS.lit "recording.webm");
        abortAfter := Some 30000 |}]
  ∧ (AudioUtils.generateSpeech text voice net).2
    = [{| target := Speech {| Server.text := JS.Str text;
                              Server.voice := JS.Str (match voice with
                                                      | Some v => v
                                                      | None => JS.lit "alloy"
                                                      end) |};
          abortAfter := Some 30000 |}].
Proof.
  unfold AudioUtils.transcribeAudio, AudioUtils.generateSpeech,
    AudioUtils.optimizeAudioForTranscription, catch, mbind, io_bind, fetch,
    jsonOf, throw, mret, io_ret.
  split; repeat (case_match; simplify_eq/=); done.
Qed.

(** An answer that reaches a helper of audioUtils.js within 30 s is
    passed on untouched by the timer: a network failure is rethrown as
    it is, without being turned into a connection error, unless its name
    is AbortError, which always reads as a time-out. *)
Theorem utils_rejection (net : network) (audio : list byte) (text : JS.str)
    (voice : option JS.str) (l : Z) (e : JS.error) (Hl : l < 30000) :
  (net (Transcribe audio (JS.lit "recording.webm"))
     = {| latency := Some l; answer := Rejected e |} →
   (AudioUtils.transcribeAudio audio net).1
   = Throws (if bool_decide (JS.name e = JS.lit "AbortError")
             then JS.mkError AudioUtils.transcriptionTimedOut else e))
  ∧ (net (Speech {| Server.text := JS.Str text;
                    Server.voice := JS.Str (default (JS.lit "alloy") voice) |})
     = {| latency := Some l; answer := Rejected e |} →
   (AudioUtils.generateSpeech text voice net).1
   = Throws (if bool_decide (JS.name e = JS.lit "AbortError")
             then JS.mkError AudioUtils.speechTimedOut else e)).
Proof.
  split; intros Hm.
  - unfold AudioUtils.transcribeAudio, AudioUtils.optimizeAudioForTranscription,
      catch, mbind, io_bind, fetch. rewrite Hm. simpl.
    destruct (Z.ltb_spec l 30000); [|lia]. by case_bool_decide.
  - unfold AudioUtils.generateSpeech, catch, mbind, io_bind, fetch. rewrite Hm. simpl.
    destruct (Z.ltb_spec l 30000); [|lia]. by case_bool_decide.
Qed.

Lemma utils_rejection_witness :
  (AudioUtils.transcribeAudio sample noRelay).1
  = Throws (JS.TypeError (JS.lit "Failed to fetch")).
Proof.
  exact (proj1 (utils_rejection noRelay sample (JS.lit "hello") None 1
                  (JS.TypeError (JS.lit "Failed to fetch")) eq_refl) eq_refl).
Defined.

End GatewayProperties.

(** ** The gateway against the relay *)

Module EndToEnd.
Import Net Outcome Scenario Fixtures Wire.

Lemma viaRelay_up s : up (viaRelay s Health) = true.
Proof. reflexivity. Qed.

(** Every error message of the relay survives the gateway's [||] and its
    test for "Failed to fetch". *)
Lemma speech_message_kept openai ip now b m msg fallback :
  Server.payload (Server.speech openai ip now b m).1.1 = Server.JsonError msg →
  orElse (Some msg) fallback = msg
  ∧ bool_decide (msg = JS.lit "Failed to fetch") = false.
Proof.
  assert (Hcatch : ∀ e, Server.payload (Server.speechCatch e) = Server.JsonError msg →
            orElse (Some msg) fallback = msg
            ∧ bool_decide (msg = JS.lit "Failed to fetch") = false).
  { intros e. unfold Server.speechCatch, Server.speechError. simpl.
    destruct (_ || _); intros [= <-]; by vm_compute. }
  unfold Server.speech. destruct (Server.checkRateLimit ip now m) as [ok m1].
  destruct ok; simpl; [|intros [= <-]; by vm_compute].
  destruct (JS.truthy (Server.text b)); simpl; [|intros [= <-]; by vm_compute].
  destruct (Server.text b) as [| |bb|n|t|]; simpl; try apply Hcatch.
  destruct (bool_decide_reflect (JS.trim t = [])); simpl;
    [intros [= <-]; by vm_compute|].
  destruct (4000 <? _); simpl; [intros [= <-]; by vm_compute|].
  destruct (openai _) as [bytes|e]; simpl; [discriminate|apply Hcatch].
Qed.

Lemma transcribe_message_kept openai ip now f m msg fallback :
  Server.payload (Server.transcribe openai ip now f m).1.1 = Server.JsonError msg →
  orElse (Some msg) fallback = msg
  ∧ bool_decide (msg = JS.lit "Failed to fetch") = false.
Proof.
  unfold Server.transcribe. destruct (Server.checkRateLimit ip now m) as [ok m1].
  destruct ok; simpl; [|intros [= <-]; by vm_compute].
  destruct f as [f|]; simpl; [|intros [= <-]; by vm_compute].
  destruct (openai _) as [[text|]|e];
    try destruct (bool_decide_reflect (text = [])); simpl;
    try (intros [= <-]; by vm_compute); try discriminate.
  unfold Server.transcribeError.
  repeat (match goal with |- context [if ?c then _ else _] => destruct c end);
    intros [= <-]; by vm_compute.
Qed.

(** A speech request that the relay accepts for a text that is not blank
    and has at most 4000 code units comes back to the caller of the
    gateway's [generateSpeech] as exactly the bytes the provider
    synthesized for that text with the voice "alloy". *)
Theorem relay_speech_round_trip (s : relay) (text : JS.str) (audio : list byte)
    (Hgate : (Server.checkRateLimit (ip s) (now s) (rateLimit s)).1 = true)
    (Htext : JS.trim text ≠ [])
    (Hlen : Z.of_nat (length text) ≤ 4000)
    (Hprovider : synthesizer s {| Server.s_model := JS.lit "tts-1";
                                  Server.s_voice := JS.Str (JS.lit "alloy");
                                  Server.s_input := text |} = Server.Fulfilled audio) :
  Gateway.generateSpeech text (viaRelay s)
  = (Value audio, [healthFetch; speechFetch text]).
Proof.
  rewrite (GatewayProperties.generateSpeech_answered (viaRelay s) text (delay s) _
             (viaRelay_up s) eq_refl).
  unfold Server.speech. destruct (Server.checkRateLimit _ _ _) as [ok m1].
  simpl in Hgate. subst ok. simpl.
  assert (Hne : text ≠ []) by (by intros ->).
  rewrite (bool_decide_eq_false_2 _ Hne). simpl.
  rewrite (bool_decide_eq_false_2 _ Htext).
  destruct (Z.ltb_spec 4000 (Z.of_nat (length text))); [lia|].
  change (JS.or JS.Undefined (JS.Str (JS.lit "alloy"))) with (JS.Str (JS.lit "alloy")).
  rewrite Hprovider. reflexivity.
Qed.

Lemma relay_speech_round_trip_witness :
  Gateway.generateSpeech (JS.lit "hello") (viaRelay freshRelay)
  = (Value [x49; x44; x33]%byte, [healthFetch; speechFetch (JS.lit "hello")]).
Proof.
  apply (relay_speech_round_trip freshRelay (JS.lit "hello") [x49; x44; x33]%byte);
    by vm_compute.
Defined.

(** A recording below the upload limit of 10 MiB that the relay accepts
    comes back to the caller of the gateway's [transcribeAudio] as
    exactly the text the provider returned for the uploaded bytes, named
    recording.webm. *)
Theorem relay_transcribe_round_trip (s : relay) (audio : list byte) (text : JS.str)
    (Hsize : Z.of_nat (length audio) < 10 * 1024 * 1024)
    (Hgate : (Server.checkRateLimit (ip s) (now s) (rateLimit s)).1 = true)
    (Htext : text ≠ [])
    (Hprovider : transcriber s
       {| Server.t_file := {| Server.buffer := audio;
                              Server.originalname := JS.lit "recording.webm";
                              Server.mimetype := mimetype s |};
          Server.t_model := JS.lit "whisper-1";
          Server.t_response_format := JS.lit "json";
          Server.t_temperature := 0;
          Server.t_language := JS.lit "en" |} = Server.Fulfilled (Some text)) :
  Gateway.transcribeAudio audio (viaRelay s)
  = (Value (Some text), [healthFetch; transcribeFetch audio]).
Proof.
  rewrite (GatewayProperties.transcribeAudio_answered (viaRelay s) audio (delay s) _
             (viaRelay_up s) eq_refl).
  unfold Server.transcribe. destruct (Server.checkRateLimit _ _ _) as [ok m1].
  simpl in Hgate. subst ok. simpl. rewrite Hprovider.
  by rewrite (bool_decide_eq_false_2 _ Htext).
Qed.

Lemma relay_transcribe_round_trip_witness :
  Gateway.transcribeAudio sample (viaRelay freshRelay)
  = (Value (Some (JS.lit "hello")), [healthFetch; transcribeFetch sample]).
Proof.
  apply (relay_transcribe_round_trip freshRelay sample (JS.lit "hello"));
    by vm_compute.
Defined.

(** Whenever the relay answers a main request with a status outside
    200..299, the gateway throws an error whose message is exactly the
    error message of the relay. *)
Theorem relay_errors_surface (s : relay) (audio : list byte) (text : JS.str) :
  let rs := (Server.speech (synthesizer s) (ip s) (now s)
               {| Server.text := JS.Str text; Server.voice := JS.Undefined |}
               (rateLimit s)).1.1 in
  let rt := (Server.transcribe (transcriber s) (ip s) (now s)
               (Some {| Server.buffer := audio;
                        Server.originalname := JS.lit "recording.webm";
                        Server.mimetype := mimetype s |})
               (rateLimit s)).1.1 in
  (okStatus (Server.status rs) = false →
     ∃ msg, Server.payload rs = Server.JsonError msg
          ∧ Gateway.generateSpeech text (viaRelay s)
            = (Throws (JS.mkError msg), [healthFetch; speechFetch text]))
  ∧ (okStatus (Server.status rt) = false →
     ∃ msg, Server.payload rt = Server.JsonError msg
          ∧ Gateway.transcribeAudio audio (viaRelay s)
            = (Throws (JS.mkError msg), [healthFetch; transcribeFetch audio])).
Proof.
  intros rs rt. split; intros Hok.
  - rewrite (GatewayProperties.generateSpeech_answered (viaRelay s) text (delay s) _
               (viaRelay_up s) eq_refl).
    fold rs. cbn [toClient ok json bytes]. rewrite Hok.
    destruct (Server.payload rs) as [msg|t|st|bs] eqn:Hp.
    + exists msg. split; [done|].
      destruct (speech_message_kept _ _ _ _ _ msg (JS.lit "Failed to generate speech") Hp)
        as [H1 H2].
      cbn [j_error]. rewrite H1, H2. reflexivity.
    + exfalso. revert Hp. unfold rs, Server.speech.
      repeat (case_match; simpl; try discriminate).
      all: unfold Server.speechCatch; simpl; discriminate.
    + exfalso. revert Hp. unfold rs, Server.speech.
      repeat (case_match; simpl; try discriminate).
      all: unfold Server.speechCatch; simpl; discriminate.
    + exfalso. revert Hp Hok. unfold rs, Server.speech.
      repeat (case_match; simpl; try discriminate).
      all: unfold Server.speechCatch; simpl; discriminate.
  - rewrite (GatewayProperties.transcribeAudio_answered (viaRelay s) audio (delay s) _
               (viaRelay_up s) eq_refl).
    fold rt. cbn [toClient ok json bytes]. rewrite Hok.
    destruct (Server.payload rt) as [msg|t|st|bs] eqn:Hp.
    + exists msg. split; [done|].
      destruct (transcribe_message_kept _ _ _ _ _ msg (JS.lit "Failed to transcribe audio") Hp)
        as [H1 H2].
      cbn [j_error]. rewrite H1, H2. reflexivity.
    + exfalso. revert Hp Hok. unfold rt, Server.transcribe.
      repeat (case_match; simpl; try discriminate).
    + exfalso. revert Hp. unfold rt, Server.transcribe.
      repeat (case_match; simpl; try discriminate).
    + exfalso. revert Hp. unfold rt, Server.transcribe.
      repeat (case_match; simpl; try discriminate).
Qed.

Lemma relay_errors_surface_witness :
  ∃ msg,
    Gateway.generateSpeech (JS.lit "hello") (viaRelay busyRelay)
    = (Throws (JS.mkError msg), [healthFetch; speechFetch (JS.lit "hello")]).
Proof.
  destruct (proj1 (relay_errors_surface busyRelay sample (JS.lit "hello"))
              ltac:(by vm_compute)) as (msg & _ & H).
  exists msg. exact H.
Defined.

End EndToEnd.

(** ** Further properties of the controller and of the page *)

Module ControllerProperties.
Import Net Outcome Scenario Fixtures VoiceControls App Lifecycle.

Lemma instance_eta i :
  Instance (type i) (targetRef i) (mediaRecorderRef i) (audioChunks i) (isRecording i)
    (error i) (audioRef i) (timeLeft i) (isProcessing i) (lastApiCallRef i)
    (hasPermission i) = i.
Proof. by destruct i. Qed.

Lemma setIsRecording_fields v i :
  isRecording (setIsRecording v i) = v
  ∧ mediaRecorderRef (setIsRecording v i) = mediaRecorderRef i
  ∧ audioChunks (setIsRecording v i) = audioChunks i
  ∧ error (setIsRecording v i) = error i
  ∧ isProcessing (setIsRecording v i) = isProcessing i
  ∧ hasPermission (setIsRecording v i) = hasPermission i
  ∧ audioRef (setIsRecording v i) = audioRef i
  ∧ timeLeft (setIsRecording v i)
    = if eqb (isRecording i) v then timeLeft i else MAX_RECORDING_TIME.
Proof. unfold setIsRecording. by destruct (eqb _ _). Qed.

Lemma writeTextArea_fields v i :
  mediaRecorderRef (writeTextArea v i) = mediaRecorderRef i
  ∧ audioChunks (writeTextArea v i) = audioChunks i
  ∧ error (writeTextArea v i) = error i
  ∧ isRecording (writeTextArea v i) = isRecording i
  ∧ isProcessing (writeTextArea v i) = isProcessing i
  ∧ hasPermission (writeTextArea v i) = hasPermission i
  ∧ timeLeft (writeTextArea v i) = timeLeft i.
Proof. unfold writeTextArea. by destruct (targetRef i) as [[]|]. Qed.

(** *** The countdown *)

Lemma ticks_snoc k i :
  ticks (S k) i = match ticks k i with inl e => inl e | inr j => tick j end.
Proof.
  revert i. induction k as [|k IH]; intros i.
  - simpl. by destruct (tick i).
  - change (ticks (S (S k)) i)
      with (match tick i with inl e => inl e | inr j => ticks (S k) j end).
    destruct (tick i) as [e|j] eqn:E.
    + simpl. by rewrite E.
    + rewrite IH. simpl. by rewrite E.
Qed.

Lemma ticks_running k i :
  Z.of_nat k < timeLeft i →
  ticks k i = inr (setTimeLeft (timeLeft i - Z.of_nat k) i).
Proof.
  revert i. induction k as [|k IH]; intros i Hk.
  - simpl. rewrite Z.sub_0_r. unfold setTimeLeft. by rewrite instance_eta.
  - simpl. unfold tick. destruct (Z.leb_spec (timeLeft i) 1); [lia|].
    rewrite IH; [|simpl; lia]. f_equal. unfold setTimeLeft. simpl. f_equal. lia.
Qed.

(** A recording that was started runs for exactly ten ticks of the
    countdown: after fewer than ten the recorder is still recording on
    its live tracks and the display shows what is left; the tenth tick
    stops the recorder and all tracks and shows 0. *)
Theorem countdown_auto_stop (now : Z) (tracks : list trackState) (i : instance)
    (st : store)
    (Hgate : RATE_LIMIT_DELAY ≤ now - lastApiCallRef i)
    (Hidle : isRecording i = false) :
  let i' := (startRecording now (Granted tracks) i st).1 in
  (∀ k, (k < 10)%nat →
     ∃ j, ticks k i' = inr j
        ∧ timeLeft j = 10 - Z.of_nat k
        ∧ mediaRecorderRef j = Some {| state := Recording; stream := tracks |})
  ∧ ∃ j, ticks 10 i' = inr j
       ∧ timeLeft j = 0
       ∧ mediaRecorderRef j
         = Some {| state := Inactive; stream := (λ _, Ended) <$> tracks |}.
Proof.
  intros i'.
  assert (Hi' : timeLeft i' = 10
                ∧ mediaRecorderRef i' = Some {| state := Recording; stream := tracks |}).
  { unfold i', startRecording. rewrite (ControllerFacts.checkRateLimit_pass _ _ Hgate).
    simpl.
    destruct (setIsRecording_fields true
      (setAudioChunks []
         (setMediaRecorder (Some {| state := Recording; stream := tracks |})
            (setError None (setHasPermission (Some true)
               (writeTextArea [] (setIsProcessing false
                  (setError None (setLastApiCall now i))))))))) as (_ & Hr & _ & _ & _ & _ & _ & Ht).
    split; [|exact Hr].
    rewrite Ht. simpl.
    destruct (writeTextArea_fields [] (setIsProcessing false
                (setError None (setLastApiCall now i)))) as (_ & _ & _ & Hrec & _).
    rewrite Hrec. simpl. by rewrite Hidle. }
  destruct Hi' as [Ht Hr].
  assert (Hrun : ∀ k, (k < 10)%nat →
            ticks k i' = inr (setTimeLeft (10 - Z.of_nat k) i')).
  { intros k Hk. rewrite ticks_running; [by rewrite Ht|lia]. }
  split.
  - intros k Hk. eexists. split; [by apply Hrun|]. split; [reflexivity|exact Hr].
  - rewrite ticks_snoc, (Hrun 9%nat); [|lia].
    pose proof (ControllerFacts.stopRecording_active (setTimeLeft (10 - Z.of_nat 9) i')
                  {| state := Recording; stream := tracks |} Hr) as Hstop.
    unfold tick. change (timeLeft (setTimeLeft (10 - Z.of_nat 9) i') <=? 1) with true.
    cbv iota. rewrite Hstop; [|done].
    eexists. split; [reflexivity|]. done.
Qed.

Lemma countdown_auto_stop_witness :
  ∃ j, ticks 10 started = inr j
     ∧ timeLeft j = 0
     ∧ mediaRecorderRef j = Some {| state := Inactive; stream := [Ended] |}.
Proof.
  refine (proj2 (countdown_auto_stop 1700000000000 [Live] (mount Input (TextArea []))
                   enabled _ eq_refl)).
  by vm_compute.
Defined.

(** *** The audio of a recording *)







(** *** A refused microphone *)

(** When the browser refuses the microphone after the limiter let the
    start pass, no recorder is created and nothing is recording; the
    error shown is the one chosen by the name of the browser's error;
    and the start has used up the window: another start within 1000 ms
    is turned away with the "please wait" error. *)
Theorem start_refused (now : Z) (e : JS.error) (i : instance) (st : store)
    (Hgate : RATE_LIMIT_DELAY ≤ now - lastApiCallRef i) :
  let i' := (startRecording now (Refused e) i st).1 in
  let st' := (startRecording now (Refused e) i st).2 in
  mediaRecorderRef i' = mediaRecorderRef i
  ∧ isRecording i' = false
  ∧ isListening st' = false
  ∧ hasPermission i' = Some false
  ∧ lastApiCallRef i' = now
  ∧ error i' = Some
      (if bool_decide (JS.name e = JS.lit "NotAllowedError") then
         JS.lit "Microphone access denied. Please allow microphone access in your browser settings and try again."
       else if bool_decide (JS.name e = JS.lit "NotFoundError") then
         JS.lit "No microphone found. Please connect a microphone and try again."
       else if bool_decide (JS.name e = JS.lit "NotReadableError") then
         JS.lit "Could not access microphone. The device may be in use by another application."
       else
         JS.lit "Could not access microphone. Please check your settings and try again.")
  ∧ (∀ later mic, later - now < RATE_LIMIT_DELAY →
       startRecording later mic i' st' = (setError (Some pleaseWait) i', st')).
Proof.
  intros i' st'.
  assert (Hi : i' = setIsRecording false
                 (setError (Some (JS.message (micError e)))
                    (setHasPermission (Some false)
                       (writeTextArea [] (setIsProcessing false
                          (setError None (setLastApiCall now i))))))
               ∧ st' = setIsListening false st).
  { unfold i', st', startRecording.
    by rewrite (ControllerFacts.checkRateLimit_pass _ _ Hgate). }
  destruct Hi as [Hi Hst].
  destruct (setIsRecording_fields false
              (setError (Some (JS.message (micError e)))
                 (setHasPermission (Some false)
                    (writeTextArea [] (setIsProcessing false
                       (setError None (setLastApiCall now i)))))))
    as (H1 & H2 & _ & H4 & _ & H6 & _).
  destruct (writeTextArea_fields [] (setIsProcessing false
              (setError None (setLastApiCall now i)))) as (W1 & _).
  assert (Hlast : lastApiCallRef i' = now).
  { rewrite Hi, ControllerFacts.setIsRecording_lastApiCallRef. simpl.
    by rewrite ControllerFacts.writeTextArea_lastApiCallRef. }
  split; [by rewrite Hi, H2; simpl; rewrite W1|].
  split; [by rewrite Hi|].
  split; [by rewrite Hst|].
  split; [by rewrite Hi, H6|].
  split; [exact Hlast|].
  split.
  - rewrite Hi, H4. simpl. f_equal. unfold micError.
    repeat case_bool_decide; done.
  - intros later mic Hl. unfold startRecording.
    rewrite ControllerFacts.checkRateLimit_block; [done|]. by rewrite Hlast.
Qed.

Lemma start_refused_witness :
  let i' := (startRecording 1700000000000 (refusal "NotFoundError") drafted enabled).1 in
  let st' := (startRecording 1700000000000 (refusal "NotFoundError") drafted enabled).2 in
  error i'
  = Some (JS.lit "No microphone found. Please connect a microphone and try again.")
  ∧ startRecording 1700000000400 (Granted [Live]) i' st'
    = (setError (Some pleaseWait) i', st').
Proof.
  assert (Hgate : RATE_LIMIT_DELAY ≤ 1700000000000 - lastApiCallRef drafted)
    by (vm_compute; discriminate).
  destruct (start_refused 1700000000000
              {| JS.name := JS.lit "NotFoundError"; JS.message := JS.lit "refused";
                 JS.status := None |} drafted enabled Hgate)
    as (_ & _ & _ & _ & _ & H6 & H7).
  split; [exact H6|]. apply H7. vm_compute. reflexivity.
Defined.

(** *** The end of a transcription *)

(** When the transcription settles the controls are free again: nothing
    is processing, recording or listening.  A transcript replaces the
    content of a textarea target and leaves the error as it was; a
    failure leaves the target as it was and shows the message of the
    error.  While the transcription is pending, the component stays in
    processing. *)
Theorem onstop_settles (i : instance) (st : store) (net : network) :
  let i' := (onstop i st net).1.1 in
  let st' := (onstop i st net).1.2 in
  match (Gateway.transcribeAudio (concat (audioChunks i)) net).1 with
  | Value text =>
      isProcessing i' = false ∧ isRecording i' = false ∧ isListening st' = false
      ∧ error i' = error i
      ∧ targetRef i'
        = match targetRef i with
          | Some (TextArea _) => Some (TextArea (default (JS.lit "undefined") text))
          | other => other
          end
  | Throws e =>
      isProcessing i' = false ∧ isRecording i' = false ∧ isListening st' = false
      ∧ error i' = Some (JS.message e)
      ∧ targetRef i' = targetRef i
  | Pending =>
      isProcessing i' = true ∧ isRecording i' = isRecording i ∧ st' = st
  end.
Proof.
  unfold onstop. simpl.
  destruct (Gateway.transcribeAudio _ net) as [[text|e|] t]; simpl.
  - match goal with |- context [setIsRecording false ?x] =>
      destruct (setIsRecording_fields false x) as (-> & _ & _ & -> & -> & _);
      rewrite (ControllerFacts.setIsRecording_targetRef false x) end.
    simpl.
    destruct (writeTextArea_fields (default (JS.lit "undefined") text)
                (setIsProcessing true i)) as (_ & _ & -> & _).
    repeat split; try done.
    unfold writeTextArea. simpl. destruct (targetRef i) as [[]|] eqn:E; simpl; by rewrite ?E.
  - match goal with |- context [setIsRecording false ?x] =>
      destruct (setIsRecording_fields false x) as (-> & _ & _ & -> & -> & _);
      rewrite (ControllerFacts.setIsRecording_targetRef false x) end.
    done.
  - done.
Qed.

(** *** Text to speech *)

(** With the controls enabled and the limiter passed, a target whose
    text is blank gives the error "Please enter some text to convert to
    speech": no request is issued and the store is untouched, but the
    click has used up the window. *)
Theorem speech_needs_text (now : Z) (play : option JS.error) (i : instance)
    (st : store) (net : network) (a : audio)
    (Henabled : isEnabled st = true)
    (Haudio : audioRef i = Some a)
    (Hgate : RATE_LIMIT_DELAY ≤ now - lastApiCallRef i)
    (Hblank : JS.trim match targetRef i with
                      | Some (Div textContent) => textContent
                      | Some (TextArea value) => value
                      | None => []
                      end = []) :
  handleTextToSpeech now play i st net
  = (setError (Some (JS.lit "Please enter some text to convert to speech"))
       (setLastApiCall now i), st, [])
  ∧ ∀ later play' net', later - now < RATE_LIMIT_DELAY →
      (handleTextToSpeech later play'
         (setError (Some (JS.lit "Please enter some text to convert to speech"))
            (setLastApiCall now i)) st net').2 = [].
Proof.
  split.
  - unfold handleTextToSpeech. rewrite Haudio, Henabled. simpl.
    rewrite (ControllerFacts.checkRateLimit_pass _ _ Hgate). simpl.
    by rewrite (bool_decide_eq_true_2 _ Hblank).
  - intros later play' net' Hl. unfold handleTextToSpeech. simpl.
    rewrite Haudio, Henabled. simpl.
    by rewrite ControllerFacts.checkRateLimit_block.
Qed.

Lemma speech_needs_text_witness :
  handleTextToSpeech 1700000000000 None emptyBlock enabled (relayAfter 800)
  = (setError (Some (JS.lit "Please enter some text to convert to speech"))
       (setLastApiCall 1700000000000 emptyBlock), enabled, []).
Proof.
  refine (proj1 (speech_needs_text 1700000000000 None emptyBlock enabled (relayAfter 800)
                   {| src := None |} eq_refl eq_refl _ _)).
  - vm_compute. discriminate.
  - vm_compute. reflexivity.
Defined.

(** With the controls enabled, the limiter passed and a target text
    that is not blank, the text goes to the gateway as it stands and the
    outcome decides the state: audio that starts playing leaves the
    speaking flag set, with the audio as source and no error; an error
    of the gateway or of the player clears the speaking flag and shows
    the message of the error; in both cases nothing is processing
    afterwards.  While the gateway is pending, the component stays
    speaking and processing. *)
Theorem speech_outcome (now : Z) (play : option JS.error) (i : instance)
    (st : store) (net : network) (a : audio)
    (Henabled : isEnabled st = true)
    (Haudio : audioRef i = Some a)
    (Hgate : RATE_LIMIT_DELAY ≤ now - lastApiCallRef i) :
  let text := match targetRef i with
              | Some (Div textContent) => textContent
              | Some (TextArea value) => value
              | None => []
              end in
  let i' := (handleTextToSpeech now play i st net).1.1 in
  let st' := (handleTextToSpeech now play i st net).1.2 in
  JS.trim text ≠ [] →
  (handleTextToSpeech now play i st net).2 = (Gateway.generateSpeech text net).2
  ∧ lastApiCallRef i' = now
  ∧ match (Gateway.generateSpeech text net).1, play with
    | Value audioData, None =>
        isSpeaking st' = true ∧ isProcessing i' = false ∧ error i' = None
        ∧ audioRef i' = Some {| src := Some audioData |}
    | Value _, Some e | Throws e, _ =>
        isSpeaking st' = false ∧ isProcessing i' = false
        ∧ error i' = Some (JS.message e)
    | Pending, _ =>
        isSpeaking st' = true ∧ isProcessing i' = true
    end.
Proof.
  intros text i' st' Htext. unfold i', st', handleTextToSpeech.
  rewrite Haudio, Henabled. simpl.
  rewrite (ControllerFacts.checkRateLimit_pass _ _ Hgate). simpl.
  fold text. rewrite (bool_decide_eq_false_2 _ Htext).
  destruct (Gateway.generateSpeech text net) as [[audioData|e|] t];
    [destruct play as [e|]| |]; done.
Qed.

Lemma speech_outcome_witness :
  let r := handleTextToSpeech 1700000000000 None (output initial) enabled noRelay in
  isSpeaking r.1.2 = false
  ∧ isProcessing r.1.1 = false
  ∧ error r.1.1 = Some Gateway.connectionFailed.
Proof.
  assert (Hgate : RATE_LIMIT_DELAY ≤ 1700000000000 - lastApiCallRef (output initial))
    by (vm_compute; discriminate).
  assert (Htext : JS.trim (JS.lit "This is a sample text that can be read aloud. Click the speaker icon to hear it.") ≠ [])
    by (vm_compute; discriminate).
  destruct (speech_outcome 1700000000000 None (output initial) enabled noRelay
              {| src := None |} eq_refl eq_refl Hgate Htext) as (_ & _ & H).
  exact H.
Defined.

(** *** The power switch *)

Lemma page_eta p : {| appStore := appStore p; input := input p; output := output p |} = p.
Proof. by destruct p. Qed.

(** Switching the controls off while a recording runs does not stop it:
    both components, and so the recorder and its tracks, stay as they
    are.  While the controls are off a click on either button changes
    nothing and issues no request, so the recording cannot be stopped by
    hand; the countdown still runs as before.  Switching twice gives the
    page back. *)
Theorem power_off_keeps_recording (env : browser) (p : page)
    (Hon : isEnabled (appStore p) = true) :
  input (clickPower p) = input p
  ∧ output (clickPower p) = output p
  ∧ isEnabled (appStore (clickPower p)) = false
  ∧ clickInput env (clickPower p) = inr (clickPower p, [])
  ∧ clickOutput env (clickPower p) = inr (clickPower p, [])
  ∧ tick (input (clickPower p)) = tick (input p)
  ∧ clickPower (clickPower p) = p.
Proof.
  assert (Hoff : isEnabled (appStore (clickPower p)) = false) by (simpl; by rewrite Hon).
  split; [done|]. split; [done|]. split; [exact Hoff|].
  split; [|split; [|split; [done|]]].
  - unfold clickInput, onClick. rewrite Hoff. reflexivity.
  - unfold clickOutput, onClick. rewrite Hoff. reflexivity.
  - destruct p as [[en sp li] pin pout]. unfold clickPower, toggleEnabled. simpl.
    by rewrite negb_involutive.
Qed.

Lemma power_off_keeps_recording_witness :
  clickInput secondClick (clickPower initial) = inr (clickPower initial, [])
  ∧ clickPower (clickPower initial) = initial.
Proof.
  destruct (power_off_keeps_recording secondClick initial eq_refl)
    as (_ & _ & _ & H & _ & _ & H').
  exact (conj H H').
Defined.

(** *** Unmounting *)

(** Unmounting a component whose recorder is not inactive stops the
    recorder and every track of its stream, exactly as a stop does;
    unmounting never throws, and after it neither a stop nor another
    cleanup changes anything. *)
Theorem unmount_releases (i : instance) (r : mediaRecorder)
    (Hrec : mediaRecorderRef i = Some r) (Hactive : state r ≠ Inactive) :
  ∃ i',
    unmount i = inr i'
    ∧ stopRecording i = inr i'
    ∧ mediaRecorderRef i'
      = Some {| state := Inactive; stream := (λ _, Ended) <$> stream r |}
    ∧ unmount i' = inr i'
    ∧ stopRecording i' = inr i'
    ∧ ∀ j, ∃ j', unmount j = inr j'.
Proof.
  assert (Hsame : ∀ j, unmount j = stopRecording j) by reflexivity.
  eexists. rewrite Hsame.
  split; [by apply ControllerFacts.stopRecording_active|].
  split; [by apply ControllerFacts.stopRecording_active|].
  split; [reflexivity|]. rewrite Hsame.
  split; [apply ControllerFacts.stopRecording_idle; right; eauto|].
  split; [apply ControllerFacts.stopRecording_idle; right; eauto|].
  intros j. rewrite Hsame. apply ControllerFacts.stopRecording_total.
Qed.

Lemma unmount_releases_witness :
  ∃ i', unmount recording = inr i'
      ∧ mediaRecorderRef i' = Some {| state := Inactive; stream := [Ended; Ended] |}.
Proof.
  destruct (unmount_releases recording {| state := Recording; stream := [Live; Live] |}
              eq_refl ltac:(discriminate)) as (i' & H1 & _ & H3 & _).
  exists i'. exact (conj H1 H3).
Defined.

End ControllerProperties.
